(** * Heap-profile aggregation, ranking and rendering

    A shallow embedding of [src/yb/server/pprof-path-handlers_util.cc]:
    the two aggregation back ends ([AggregateAndSortProfile] for the
    tcmalloc sampling profile, [GetAggregateAndSortHeapSnapshot] for the
    gperftools flattened snapshot), the ranking step
    ([SortSamplesByOrder]) and the table renderer ([GenerateTable]). *)

From Stdlib Require Import Ascii.
From stdpp Require Import gmap strings list fin_maps sorting pretty.
From Equations Require Import Equations.

Local Open Scope Z_scope.

(** ** Machine integers

    Accumulators are 64-bit signed fields, the failure counter is an
    [int].  Values are kept in [Z]; every store into a fixed-width
    variable goes through the corresponding wrap. *)

Definition INT64_MAX : Z := 2 ^ 63 - 1.
Definition INT64_MIN : Z := - 2 ^ 63.
Definition INT_MAX : Z := 2 ^ 31 - 1.
Definition INT_MIN : Z := - 2 ^ 31.

Definition wrap_int64 (z : Z) : Z := (z + 2 ^ 63) mod 2 ^ 64 - 2 ^ 63.
Definition wrap_int (z : Z) : Z := (z + 2 ^ 31) mod 2 ^ 32 - 2 ^ 31.

(** ** Data model *)

(** [SampleOrder], declared in the header.  The comparator of
    [SortSamplesByOrder] only tells [kBytes] from every other order, which
    it treats as the order by count; [kCount] stands for those. *)
Inductive SampleOrder : Set := kBytes | kCount.

(** Modelled from the spec: [SampleInfo] and the pair type [Sample] are
    declared in pprof-path-handlers_util.h, which is not part of the
    sources at hand.  The spec gives SampleInfo{cumulative bytes,
    cumulative occurrence count}, two integers.  They are taken as
    [int64_t]: the renderer tests [count <= 0], a signed comparison, and
    the fields accumulate 64-bit sample fields.  A fresh map slot is
    value-initialised, hence zero. *)
Record SampleInfo : Set := mkSampleInfo { bytes : Z; count : Z }.

Definition SampleInfo_zero : SampleInfo := mkSampleInfo 0 0.

(** [Sample] is a pair of the stack text ([first]) and its totals
    ([second]). *)
Definition Sample : Set := (string * SampleInfo)%type.

(** The fields of [tcmalloc::Profile::Sample] that the aggregator reads
    outside of logging.  [stack] is the fixed array of return addresses,
    of which the first [depth] are meaningful. *)
Record ProfileSample : Set := mkProfileSample {
  sample_count : Z;
  allocated_size : Z;
  is_censored : bool;
  depth : Z;
  stack : list Z
}.

(** One record of the gperftools snapshot: the three header words and
    the program counters that follow them. *)
Record SnapshotSample : Set := mkSnapshotSample {
  snap_count : Z;
  snap_size : Z;
  snap_stack : list Z
}.

(** State threaded through the aggregation loops: the
    [std::unordered_map<std::string, SampleInfo>] and the local counter
    [failed_symbolizations]. *)
Record AggState : Type := mkAggState {
  samples_map : gmap string SampleInfo;
  failed_symbolizations : Z
}.

Definition AggState_init : AggState := mkAggState ∅ 0.

(** [std::endl] written to a [std::stringstream]. *)
Definition endl : string := String "010"%char EmptyString.

Definition failed_line : string := "Failed to symbolize" +:+ endl.

(** [samples_map[stack]]: the slot for [stack], created zeroed when absent. *)
Definition map_slot (m : gmap string SampleInfo) (k : string) : SampleInfo :=
  default SampleInfo_zero (m !! k).

(** Concatenation of a list of text fragments. *)
Definition concat_strings (l : list string) : string :=
  foldr String.append EmptyString l.

Section Aggregation.

(** [Symbolize(pc, buf, sizeof(buf))]: the resolver is external; [None]
    stands for a [false] return, [Some name] for the text left in
    [buf]. *)
Variable Symbolize : Z → option string.

(** Body of the per-frame loop, shared verbatim by both back ends. *)
Definition symbolize_frame (acc : string * Z) (pc : Z) : string * Z :=
  let '(sstream, failed) := acc in
  match Symbolize pc with
  | Some buf => (sstream +:+ buf +:+ endl, failed)
  | None => (sstream +:+ failed_line, wrap_int (failed + 1))
  end.

Definition symbolize_stack (frames : list Z) (failed : Z) : string * Z :=
  foldl symbolize_frame (EmptyString, failed) frames.

(** *** tcmalloc sampling profile *)

(** The frames visited by [for (i = 0; i < sample.depth; ++i)]. *)
Definition sample_frames (s : ProfileSample) : list Z :=
  take (Z.to_nat (depth s)) (stack s).

(** The [Iterate] callback of [AggregateAndSortProfile]. *)
Definition profile_visit (only_growth : bool) (st : AggState)
    (s : ProfileSample) : AggState :=
  if bool_decide (sample_count s ≤ 0) then st
  else if only_growth && negb (is_censored s) then st
  else
    let '(stack_key, failed) :=
      symbolize_stack (sample_frames s) (failed_symbolizations st) in
    let entry := map_slot (samples_map st) stack_key in
    let entry := mkSampleInfo (wrap_int64 (bytes entry + allocated_size s))
                              (count entry) in
    let entry := mkSampleInfo (bytes entry) (wrap_int64 (count entry + 1)) in
    mkAggState (<[stack_key := entry]> (samples_map st)) failed.

Definition AggregateProfile (profile : list ProfileSample)
    (only_growth : bool) : AggState :=
  foldl (profile_visit only_growth) AggState_init profile.

(** *** gperftools heap snapshot *)

(** Loop body of [GetAggregateAndSortHeapSnapshot] for a record with
    header words [cnt] and [size] and program counters [frames]. *)
Definition snapshot_visit (st : AggState) (cnt size : Z)
    (frames : list Z) : AggState :=
  let '(stack_key, failed) :=
    symbolize_stack frames (failed_symbolizations st) in
  let entry := map_slot (samples_map st) stack_key in
  let entry := mkSampleInfo (wrap_int64 (bytes entry + size))
                            (count entry) in
  let entry := mkSampleInfo (bytes entry)
                            (wrap_int64 (count entry + cnt)) in
  mkAggState (<[stack_key := entry]> (samples_map st)) failed.

(** The [for] loop over the flattened array
    [count, size, depth, pc 0, pc 1, ...], where the argument is the
    part of the array from the cursor [sample] onwards.  The loop stops
    at a count word equal to 0; [None] stands for a read past the end
    of the array. *)
Equations? snapshot_loop (samples : list Z) (st : AggState)
    : option AggState by wf (length samples) lt :=
  snapshot_loop [] st := None;
  snapshot_loop (cnt :: tl) st with bool_decide (cnt = 0) := {
    | true := Some st
    | false with tl := {
      | size :: dpt :: pcs with decide (Z.to_nat dpt ≤ length pcs)%nat := {
        | left _ :=
            snapshot_loop (drop (Z.to_nat dpt) pcs)
              (snapshot_visit st cnt size (take (Z.to_nat dpt) pcs))
        | right _ := None }
      | _ := None } }.
Proof. rewrite length_drop. simpl. lia. Qed.

Definition AggregateSnapshot (samples : list Z) : option AggState :=
  snapshot_loop samples AggState_init.

(** *** Vocabulary for the statements below *)

(** The line a frame contributes to the stack key. *)
Definition frame_line (pc : Z) : string :=
  match Symbolize pc with
  | Some buf => buf +:+ endl
  | None => failed_line
  end.

(** Number of frames of a stack that do not symbolise. *)
Definition failed_frames (frames : list Z) : Z :=
  Z.of_nat (length (filter (λ pc, Symbolize pc = None) frames)).

(** The key under which a profile sample is filed. *)
Definition stack_key (s : ProfileSample) : string :=
  concat_strings (frame_line <$> sample_frames s).

(** A sample is retained when its count is positive and, in growth-only
    mode, it is censored. *)
Definition retained (only_growth : bool) (s : ProfileSample) : bool :=
  bool_decide (0 < sample_count s) && (negb only_growth || is_censored s).

(** The entry stored for a retained profile sample. *)
Definition profile_entry (old : SampleInfo) (s : ProfileSample) : SampleInfo :=
  mkSampleInfo (wrap_int64 (bytes old + allocated_size s))
               (wrap_int64 (count old + 1)).

(** The entry stored for a snapshot record. *)
Definition snapshot_entry (old : SampleInfo) (cnt size : Z) : SampleInfo :=
  mkSampleInfo (wrap_int64 (bytes old + size)) (wrap_int64 (count old + cnt)).

End Aggregation.

(** The loop body applied to a decoded record. *)
Definition snapshot_visit_sample (Symbolize : Z → option string)
    (st : AggState) (s : SnapshotSample) : AggState :=
  snapshot_visit Symbolize st (snap_count s) (snap_size s) (snap_stack s).

(** Layout of one snapshot record in the flattened array. *)
Definition encode_sample (s : SnapshotSample) : list Z :=
  snap_count s :: snap_size s :: Z.of_nat (length (snap_stack s))
    :: snap_stack s.

Definition flatten_samples (l : list SnapshotSample) : list Z :=
  l ≫= encode_sample.

(** ** Ranking *)

(** The comparator lambda handed to [std::sort]. *)
Definition sample_greater (order : SampleOrder) (a b : Sample) : bool :=
  match order with
  | kBytes => bool_decide (bytes a.2 > bytes b.2)
  | kCount => bool_decide (count a.2 > count b.2)
  end.

(** The key that [sample_greater] compares. *)
Definition sort_key (order : SampleOrder) (a : Sample) : Z :=
  match order with kBytes => bytes a.2 | kCount => count a.2 end.

(** What the C++ standard promises of [std::sort(first, last, comp)]: the
    range is rearranged, and afterwards no element compares before one
    that precedes it.  The order of equivalent elements is left open, so
    the call is a relation between the range before and after. *)
Definition is_sorted {A} (comp : A → A → bool) (l : list A) : Prop :=
  ∀ (i n : nat) a b,
    l !! i = Some a → l !! (i + n)%nat = Some b → comp b a = false.

Definition std_sort {A} (comp : A → A → bool) (before after : list A) : Prop :=
  before ≡ₚ after ∧ is_sorted comp after.

Definition SortSamplesByOrder (order : SampleOrder)
    (samples samples' : list Sample) : Prop :=
  std_sort (sample_greater order) samples samples'.

(** One admissible outcome of the sort, used to show that the contract
    can always be met and to run the pipeline on concrete inputs. *)
Definition key_ge (order : SampleOrder) (a b : Sample) : Prop :=
  sort_key order b ≤ sort_key order a.

#[local] Instance key_ge_dec order a b : Decision (key_ge order a b).
Proof. unfold key_ge. apply _. Defined.

Definition sort_samples_run (order : SampleOrder) (l : list Sample)
    : list Sample :=
  merge_sort (key_ge order) l.

(** Copying the map into [samples_vec] visits the entries in the hash
    table's order, which is unspecified. *)
Definition map_entries (m : gmap string SampleInfo) (vec : list Sample) : Prop :=
  vec ≡ₚ map_to_list m.

Definition AggregateAndSortProfile (Symbolize : Z → option string)
    (profile : list ProfileSample) (only_growth : bool) (order : SampleOrder)
    (result : list Sample) : Prop :=
  ∃ samples_vec,
    map_entries (samples_map (AggregateProfile Symbolize profile only_growth))
                samples_vec
    ∧ SortSamplesByOrder order samples_vec result.

Definition GetAggregateAndSortHeapSnapshot (Symbolize : Z → option string)
    (samples : list Z) (order : SampleOrder) (result : list Sample) : Prop :=
  ∃ st samples_vec,
    AggregateSnapshot Symbolize samples = Some st
    ∧ map_entries (samples_map st) samples_vec
    ∧ SortSamplesByOrder order samples_vec result.

(** Executable instances of the two pipelines. *)
Definition AggregateAndSortProfile_run (Symbolize : Z → option string)
    (profile : list ProfileSample) (only_growth : bool) (order : SampleOrder)
    : list Sample :=
  sort_samples_run order
    (map_to_list (samples_map (AggregateProfile Symbolize profile only_growth))).

Definition GetAggregateAndSortHeapSnapshot_run
    (Symbolize : Z → option string) (samples : list Z) (order : SampleOrder)
    : option (list Sample) :=
  st ← AggregateSnapshot Symbolize samples;
  Some (sort_samples_run order (map_to_list (samples_map st))).

(** What a stable sort would add to the contract of [std_sort]: for
    every key value, the entries carrying it appear in their input order. *)
Definition stable_order (order : SampleOrder)
    (before after : list Sample) : Prop :=
  ∀ k, filter (λ e, sort_key order e = k) after
       = filter (λ e, sort_key order e = k) before.

(** ** Totals used to state the aggregation properties *)

Definition sum_Z (l : list Z) : Z := foldr Z.add 0 l.

(** Sum of the cumulative bytes, and of the cumulative counts, over a
    list of entries. *)
Definition total_bytes (l : list Sample) : Z := sum_Z ((λ e, bytes e.2) <$> l).
Definition total_count (l : list Sample) : Z := sum_Z ((λ e, count e.2) <$> l).

(** The samples of a profile that the spec says are kept, their number
    and the sum of their byte totals. *)
Definition retained_samples (only_growth : bool)
    (profile : list ProfileSample) : list ProfileSample :=
  filter (λ s, retained only_growth s) profile.

Definition retained_bytes (only_growth : bool)
    (profile : list ProfileSample) : Z :=
  sum_Z (allocated_size <$> retained_samples only_growth profile).

Definition retained_count (only_growth : bool)
    (profile : list ProfileSample) : Z :=
  Z.of_nat (length (retained_samples only_growth profile)).

(** [allocated_size] is a [size_t]. *)
Definition size_in_range (s : ProfileSample) : Prop :=
  0 ≤ allocated_size s < 2 ^ 64.

(** ** Concrete inputs on which the statements are exercised *)

(** A resolver that knows the addresses 1 and 2 and fails on all others. *)
Definition demo_symbolize (pc : Z) : option string :=
  if bool_decide (pc = 1) then Some "foo"
  else if bool_decide (pc = 2) then Some "bar"
  else None.

(** Two samples on the stack foo/bar, a deallocation, and a sample whose
    single frame does not resolve. *)
Definition demo_profile : list ProfileSample :=
  [ mkProfileSample 1 100 true 2 [1; 2];
    mkProfileSample 1 300 false 2 [1; 2; 7];
    mkProfileSample (-5) 64 true 1 [1];
    mkProfileSample 3 50 false 1 [9] ].

(** ** Rendering *)

Definition nl : string := String "010"%char EmptyString.
Definition dquote : string := String "034"%char EmptyString.

(** Integer division as the hardware performs it: undefined for a zero
    divisor and for [INT64_MIN / -1], truncating towards zero otherwise. *)
Definition int64_div (a b : Z) : option Z :=
  if bool_decide (b = 0) then None
  else if bool_decide (a = INT64_MIN ∧ b = -1) then None
  else Some (a `quot` b).

(** The third column:
    [entry.second.count <= 0 ? 0 : entry.second.bytes / entry.second.count]. *)
Definition average_bytes (info : SampleInfo) : option Z :=
  if bool_decide (count info ≤ 0) then Some 0
  else int64_div (bytes info) (count info).

Section Render.

(** [EscapeForHtmlToString] comes from yb/util/url-coding.h. *)
Variable EscapeForHtmlToString : string → string.

Definition table_title (max_call_stacks : N) (title : string) : string :=
  "<b>Top " +:+ pretty max_call_stacks +:+ " Call Stacks for: " +:+ title
    +:+ "</b>" +:+ nl.

Definition truncation_notice (truncated : N) : string :=
  pretty truncated +:+ " call stacks truncated" +:+ nl.

Definition table_head : string :=
  "<p>" +:+ nl
  +:+ "<table style=" +:+ dquote +:+ "border-collapse: collapse" +:+ dquote
  +:+ " border=1 cellpadding=5>" +:+ nl
  +:+ "<tr>" +:+ nl
  +:+ "<th>Total bytes</th>" +:+ nl
  +:+ "<th>Count</th>" +:+ nl
  +:+ "<th>Avg bytes</th>" +:+ nl
  +:+ "<th>Call Stack</th>" +:+ nl
  +:+ "</tr>" +:+ nl.

(** The text of one row once its average is known. *)
Definition row_text (entry : Sample) (avg : Z) : string :=
  "<tr>"
  +:+ ("<td>" +:+ pretty (bytes entry.2) +:+ "</td>")
  +:+ ("<td>" +:+ pretty (count entry.2) +:+ "</td>")
  +:+ ("<td>" +:+ pretty avg +:+ "</td>")
  +:+ ("<td><pre>" +:+ EscapeForHtmlToString entry.1 +:+ "</pre></td>")
  +:+ "</tr>".

(** Body of the row loop at index [i]: [samples.at(i)] throws when [i] is
    out of range, and the division may be undefined; both are [None]. *)
Definition emit_row (samples : list Sample) (output : option string)
    (i : nat) : option string :=
  output ← output;
  entry ← samples !! i;
  avg ← average_bytes entry.2;
  Some (output +:+ row_text entry avg).

Definition GenerateTable (output : string) (samples : list Sample)
    (title : string) (max_call_stacks : N) : option string :=
  let size := N.of_nat (length samples) in
  let output := output +:+ table_title max_call_stacks title in
  let output :=
    if bool_decide (max_call_stacks < size)%N
    then output +:+ truncation_notice (size - max_call_stacks)
    else output in
  let output := output +:+ table_head in
  output ← foldl (emit_row samples) (Some output)
             (seq 0 (N.to_nat (N.min max_call_stacks size)));
  Some (output +:+ "</table>").

(** The row that the spec describes for an entry: average 0 for a count
    of 0 (or below), the quotient otherwise. *)
Definition average_column (info : SampleInfo) : Z :=
  if bool_decide (count info ≤ 0) then 0 else bytes info `quot` count info.

Definition rendered_row (entry : Sample) : string :=
  row_text entry (average_column entry.2).

End Render.

(** ** Vocabulary for the properties of the whole loops *)

(** What one loop iteration adds to the map: the key of the slot, the
    amount added to its count and the amount added to its bytes. *)
Record Contribution : Set := mkContribution {
  c_key : string;
  c_count : Z;
  c_bytes : Z
}.

(** The statements [auto& entry = samples_map[key]; entry.bytes += ...;
    entry.count += ...] of either loop. *)
Definition add_contribution (m : gmap string SampleInfo) (c : Contribution)
    : gmap string SampleInfo :=
  <[c_key c := snapshot_entry (map_slot m (c_key c)) (c_count c) (c_bytes c)]> m.

Definition profile_contribution (Symbolize : Z → option string)
    (s : ProfileSample) : Contribution :=
  mkContribution (stack_key Symbolize s) 1 (allocated_size s).

Definition snapshot_contribution (Symbolize : Z → option string)
    (s : SnapshotSample) : Contribution :=
  mkContribution (concat_strings (frame_line Symbolize <$> snap_stack s))
                 (snap_count s) (snap_size s).

(** The contributions filed under key [k]. *)
Definition contributions_at (k : string) (cs : list Contribution)
    : list Contribution :=
  filter (λ c, c_key c = k) cs.

(** The entry that a list of contributions amounts to under key [k]:
    none when nothing is filed there, the 64-bit sums otherwise. *)
Definition merged (cs : list Contribution) (k : string) : option SampleInfo :=
  let hits := contributions_at k cs in
  if decide (hits = []) then None
  else Some (mkSampleInfo (wrap_int64 (sum_Z (c_bytes <$> hits)))
                          (wrap_int64 (sum_Z (c_count <$> hits)))).

(** The warning logged after either loop:
    [if (failed_symbolizations > 0) LOG(WARNING) << Format(...)]. *)
Definition failure_warning (failed : Z) : option string :=
  if bool_decide (failed > 0)
  then Some ("Failed to symbolize " +:+ pretty failed +:+ " symbols")
  else None.

(** Failing frames among those visited for the retained samples. *)
Definition retained_failures (Symbolize : Z → option string)
    (only_growth : bool) (profile : list ProfileSample) : Z :=
  sum_Z ((λ s, failed_frames Symbolize (sample_frames s))
           <$> retained_samples only_growth profile).

(** Words of the flattened array are [uintptr_t] values. *)
Definition word_in_range (w : Z) : Prop := 0 ≤ w < 2 ^ 64.

(** Failing frames among those of a list of snapshot records. *)
Definition snapshot_failures (Symbolize : Z → option string)
    (pre : list SnapshotSample) : Z :=
  sum_Z ((λ s, failed_frames Symbolize (snap_stack s)) <$> pre).

(** ** The sort routine of the standard library

    [SortSamplesByOrder] hands the vector to [std::sort].  What every
    standard library promises of it is [std_sort] above; what the GNU
    library (libstdc++, bits/stl_algo.h and bits/stl_heap.h) does is
    transcribed here: an introsort, that is quicksort on the median of
    three down to ranges of 16 elements, heap sort beyond the depth
    limit, and a final insertion sort.  The vector is a list, iterators
    are offsets from [begin()]. *)

Module libstdcxx.

Section Sort.

Context {A : Type} (comp : A → A → bool).

(** [*(begin + i)] read; [None] for an address outside the vector. *)
Definition load (v : list A) (i : Z) : option A :=
  if decide (0 ≤ i) then v !! Z.to_nat i else None.

(** [*(begin + i) = x]. *)
Definition store (v : list A) (i : Z) (x : A) : option (list A) :=
  if decide (0 ≤ i < Z.of_nat (length v)) then Some (<[Z.to_nat i := x]> v)
  else None.

(** Every loop below moves an index by at least one per round and touches
    the vector at that index, so after [S (length v)] rounds it has left
    the vector; running out of rounds is reported like such an access. *)
Definition loop_fuel (v : list A) : nat := S (length v).

(** [std::iter_swap(a, b)]. *)
Definition iter_swap (a b : Z) (v : list A) : option (list A) :=
  x ← load v a; y ← load v b;
  v ← store v a y; store v b x.

(** [__move_median_to_first(result, a, b, c, comp)]. *)
Definition move_median_to_first (result a b c : Z) (v : list A)
    : option (list A) :=
  xa ← load v a; xb ← load v b; xc ← load v c;
  if comp xa xb then
    if comp xb xc then iter_swap result b v
    else if comp xa xc then iter_swap result c v
    else iter_swap result a v
  else if comp xa xc then iter_swap result a v
  else if comp xb xc then iter_swap result c v
  else iter_swap result b v.

(** [__unguarded_linear_insert(last, comp)]: the held value [val], the
    hole at [last] and the cursor [next]. *)
Fixpoint unguarded_linear_insert_loop (fuel : nat) (val : A) (last next : Z)
    (v : list A) : option (list A) :=
  match fuel with
  | O => None
  | S fuel =>
      x ← load v next;
      if comp val x then
        v ← store v last x;
        unguarded_linear_insert_loop fuel val next (next - 1) v
      else store v last val
  end.

Definition unguarded_linear_insert (last : Z) (v : list A)
    : option (list A) :=
  val ← load v last;
  unguarded_linear_insert_loop (loop_fuel v) val last (last - 1) v.

(** [std::move_backward(first, last, d_last)]. *)
Fixpoint move_backward (fuel : nat) (first last d_last : Z) (v : list A)
    : option (list A) :=
  match fuel with
  | O => None
  | S fuel =>
      if decide (first = last) then Some v
      else
        x ← load v (last - 1);
        v ← store v (d_last - 1) x;
        move_backward fuel first (last - 1) (d_last - 1) v
  end.

(** [__insertion_sort(first, last, comp)]. *)
Fixpoint insertion_sort_loop (fuel : nat) (first i last : Z) (v : list A)
    : option (list A) :=
  match fuel with
  | O => None
  | S fuel =>
      if decide (i = last) then Some v
      else
        xi ← load v i; xf ← load v first;
        v ← (if comp xi xf then
               v ← move_backward (loop_fuel v) first i (i + 1) v;
               store v first xi
             else unguarded_linear_insert i v);
        insertion_sort_loop fuel first (i + 1) last v
  end.

Definition insertion_sort (first last : Z) (v : list A) : option (list A) :=
  if decide (first = last) then Some v
  else insertion_sort_loop (loop_fuel v) first (first + 1) last v.

(** [__unguarded_insertion_sort(first, last, comp)]. *)
Fixpoint unguarded_insertion_sort_loop (fuel : nat) (i last : Z) (v : list A)
    : option (list A) :=
  match fuel with
  | O => None
  | S fuel =>
      if decide (i = last) then Some v
      else
        v ← unguarded_linear_insert i v;
        unguarded_insertion_sort_loop fuel (i + 1) last v
  end.

Definition unguarded_insertion_sort (first last : Z) (v : list A)
    : option (list A) :=
  unguarded_insertion_sort_loop (loop_fuel v) first last v.

(** [enum { _S_threshold = 16 }]. *)
Definition S_threshold : Z := 16.

(** [__final_insertion_sort(first, last, comp)]. *)
Definition final_insertion_sort (first last : Z) (v : list A)
    : option (list A) :=
  if decide (last - first > S_threshold) then
    v ← insertion_sort first (first + S_threshold) v;
    unguarded_insertion_sort (first + S_threshold) last v
  else insertion_sort first last v.

(** The two inner loops of [__unguarded_partition]:
    [while (comp(first, pivot)) ++first] and
    [while (comp(pivot, last)) --last]. *)
Fixpoint scan_up (fuel : nat) (first pivot : Z) (v : list A) : option Z :=
  match fuel with
  | O => None
  | S fuel =>
      x ← load v first; p ← load v pivot;
      if comp x p then scan_up fuel (first + 1) pivot v else Some first
  end.

Fixpoint scan_down (fuel : nat) (pivot last : Z) (v : list A) : option Z :=
  match fuel with
  | O => None
  | S fuel =>
      p ← load v pivot; x ← load v last;
      if comp p x then scan_down fuel pivot (last - 1) v else Some last
  end.

(** [__unguarded_partition(first, last, pivot, comp)]. *)
Fixpoint unguarded_partition_loop (fuel : nat) (first last pivot : Z)
    (v : list A) : option (Z * list A) :=
  match fuel with
  | O => None
  | S fuel =>
      first ← scan_up (loop_fuel v) first pivot v;
      last ← scan_down (loop_fuel v) pivot (last - 1) v;
      if decide (first < last) then
        v ← iter_swap first last v;
        unguarded_partition_loop fuel (first + 1) last pivot v
      else Some (first, v)
  end.

Definition unguarded_partition (first last pivot : Z) (v : list A)
    : option (Z * list A) :=
  unguarded_partition_loop (loop_fuel v) first last pivot v.

(** [__unguarded_partition_pivot(first, last, comp)]. *)
Definition unguarded_partition_pivot (first last : Z) (v : list A)
    : option (Z * list A) :=
  let mid := first + (last - first) `quot` 2 in
  v ← move_median_to_first first (first + 1) mid (last - 1) v;
  unguarded_partition (first + 1) last first v.

(** [__push_heap(first, holeIndex, topIndex, value, comp)]. *)
Fixpoint push_heap_loop (fuel : nat) (first holeIndex topIndex : Z)
    (value : A) (v : list A) : option (list A) :=
  match fuel with
  | O => None
  | S fuel =>
      let parent := (holeIndex - 1) `quot` 2 in
      if decide (holeIndex > topIndex) then
        xp ← load v (first + parent);
        if comp xp value then
          v ← store v (first + holeIndex) xp;
          push_heap_loop fuel first parent topIndex value v
        else store v (first + holeIndex) value
      else store v (first + holeIndex) value
  end.

Definition push_heap (first holeIndex topIndex : Z) (value : A)
    (v : list A) : option (list A) :=
  push_heap_loop (loop_fuel v) first holeIndex topIndex value v.

(** [__adjust_heap(first, holeIndex, len, value, comp)]: its first loop,
    then the function. *)
Fixpoint adjust_heap_loop (fuel : nat) (first holeIndex secondChild len : Z)
    (v : list A) : option (Z * Z * list A) :=
  match fuel with
  | O => None
  | S fuel =>
      if decide (secondChild < (len - 1) `quot` 2) then
        let secondChild := 2 * (secondChild + 1) in
        x ← load v (first + secondChild);
        y ← load v (first + (secondChild - 1));
        let secondChild := if comp x y then secondChild - 1 else secondChild in
        z ← load v (first + secondChild);
        v ← store v (first + holeIndex) z;
        adjust_heap_loop fuel first secondChild secondChild len v
      else Some (holeIndex, secondChild, v)
  end.

Definition adjust_heap (first holeIndex len : Z) (value : A) (v : list A)
    : option (list A) :=
  let topIndex := holeIndex in
  '(holeIndex, secondChild, v) ←
    adjust_heap_loop (loop_fuel v) first holeIndex holeIndex len v;
  '(holeIndex, v) ←
    (if decide (Z.land len 1 = 0 ∧ secondChild = (len - 2) `quot` 2) then
       let secondChild := 2 * (secondChild + 1) in
       x ← load v (first + (secondChild - 1));
       v ← store v (first + holeIndex) x;
       Some (secondChild - 1, v)
     else Some (holeIndex, v));
  push_heap first holeIndex topIndex value v.

(** [__pop_heap(first, last, result, comp)]. *)
Definition pop_heap (first last result : Z) (v : list A) : option (list A) :=
  value ← load v result;
  x ← load v first;
  v ← store v result x;
  adjust_heap first 0 (last - first) value v.

(** [__make_heap(first, last, comp)]. *)
Fixpoint make_heap_loop (fuel : nat) (first parent len : Z) (v : list A)
    : option (list A) :=
  match fuel with
  | O => None
  | S fuel =>
      value ← load v (first + parent);
      v ← adjust_heap first parent len value v;
      if decide (parent = 0) then Some v
      else make_heap_loop fuel first (parent - 1) len v
  end.

Definition make_heap (first last : Z) (v : list A) : option (list A) :=
  if decide (last - first < 2) then Some v
  else
    let len := last - first in
    make_heap_loop (loop_fuel v) first ((len - 2) `quot` 2) len v.

(** [__heap_select(first, middle, last, comp)]. *)
Fixpoint heap_select_loop (fuel : nat) (first middle i last : Z) (v : list A)
    : option (list A) :=
  match fuel with
  | O => None
  | S fuel =>
      if decide (i < last) then
        xi ← load v i; xf ← load v first;
        v ← (if comp xi xf then pop_heap first middle i v else Some v);
        heap_select_loop fuel first middle (i + 1) last v
      else Some v
  end.

Definition heap_select (first middle last : Z) (v : list A)
    : option (list A) :=
  v ← make_heap first middle v;
  heap_select_loop (loop_fuel v) first middle middle last v.

(** [__sort_heap(first, last, comp)]. *)
Fixpoint sort_heap (fuel : nat) (first last : Z) (v : list A)
    : option (list A) :=
  match fuel with
  | O => None
  | S fuel =>
      if decide (last - first > 1) then
        v ← pop_heap first (last - 1) (last - 1) v;
        sort_heap fuel first (last - 1) v
      else Some v
  end.

(** [__partial_sort(first, middle, last, comp)]. *)
Definition partial_sort (first middle last : Z) (v : list A)
    : option (list A) :=
  v ← heap_select first middle last v;
  sort_heap (loop_fuel v) first middle v.

(** [__introsort_loop(first, last, depth_limit, comp)]: each round of the
    [while] loop, like the recursive call, runs with the depth limit
    lowered by one. *)
Fixpoint introsort_loop (depth_limit : nat) (first last : Z) (v : list A)
    : option (list A) :=
  if decide (last - first > S_threshold) then
    match depth_limit with
    | O => partial_sort first last last v
    | S depth_limit =>
        '(cut, v) ← unguarded_partition_pivot first last v;
        v ← introsort_loop depth_limit cut last v;
        introsort_loop depth_limit first cut v
    end
  else Some v.

(** [std::sort(v.begin(), v.end(), comp)], that is [__sort]; the depth
    limit is [__lg(last - first) * 2]. *)
Definition sort (v : list A) : option (list A) :=
  let first := 0 in
  let last := Z.of_nat (length v) in
  if decide (first = last) then Some v
  else
    v ← introsort_loop (Z.to_nat (Z.log2 (last - first) * 2)) first last v;
    final_insertion_sort first last v.

End Sort.

End libstdcxx.

#[local] Instance SampleInfo_eq_dec : EqDecision SampleInfo.
Proof. solve_decision. Defined.

(** [SortSamplesByOrder] as the GNU library runs it. *)
Definition SortSamplesByOrder_run (order : SampleOrder)
    (samples : list Sample) : option (list Sample) :=
  libstdcxx.sort (sample_greater order) samples.

(** Twenty-four entries with the same cumulative bytes, numbered by their
    count, and the order in which the GNU [std::sort] leaves them when
    sorting by bytes. *)
Definition tied_samples : list Sample :=
  [ ("s00", mkSampleInfo 5 0); ("s01", mkSampleInfo 5 1);
    ("s02", mkSampleInfo 5 2); ("s03", mkSampleInfo 5 3);
    ("s04", mkSampleInfo 5 4); ("s05", mkSampleInfo 5 5);
    ("s06", mkSampleInfo 5 6); ("s07", mkSampleInfo 5 7);
    ("s08", mkSampleInfo 5 8); ("s09", mkSampleInfo 5 9);
    ("s10", mkSampleInfo 5 10); ("s11", mkSampleInfo 5 11);
    ("s12", mkSampleInfo 5 12); ("s13", mkSampleInfo 5 13);
    ("s14", mkSampleInfo 5 14); ("s15", mkSampleInfo 5 15);
    ("s16", mkSampleInfo 5 16); ("s17", mkSampleInfo 5 17);
    ("s18", mkSampleInfo 5 18); ("s19", mkSampleInfo 5 19);
    ("s20", mkSampleInfo 5 20); ("s21", mkSampleInfo 5 21);
    ("s22", mkSampleInfo 5 22); ("s23", mkSampleInfo 5 23) ].

Definition tied_samples_sorted : list Sample :=
  [ ("s12", mkSampleInfo 5 12); ("s23", mkSampleInfo 5 23);
    ("s22", mkSampleInfo 5 22); ("s21", mkSampleInfo 5 21);
    ("s20", mkSampleInfo 5 20); ("s19", mkSampleInfo 5 19);
    ("s18", mkSampleInfo 5 18); ("s17", mkSampleInfo 5 17);
    ("s16", mkSampleInfo 5 16); ("s15", mkSampleInfo 5 15);
    ("s14", mkSampleInfo 5 14); ("s13", mkSampleInfo 5 13);
    ("s00", mkSampleInfo 5 0); ("s11", mkSampleInfo 5 11);
    ("s10", mkSampleInfo 5 10); ("s09", mkSampleInfo 5 9);
    ("s08", mkSampleInfo 5 8); ("s07", mkSampleInfo 5 7);
    ("s06", mkSampleInfo 5 6); ("s05", mkSampleInfo 5 5);
    ("s04", mkSampleInfo 5 4); ("s03", mkSampleInfo 5 3);
    ("s02", mkSampleInfo 5 2); ("s01", mkSampleInfo 5 1) ].

(** * Properties *)

(** ** Arithmetic and string helpers *)

Lemma wrap_int64_small z : INT64_MIN ≤ z ≤ INT64_MAX → wrap_int64 z = z.
Proof.
  unfold INT64_MIN, INT64_MAX, wrap_int64. intros Hz.
  rewrite Z.mod_small; lia.
Qed.

Lemma wrap_int_small z : INT_MIN ≤ z ≤ INT_MAX → wrap_int z = z.
Proof.
  unfold INT_MIN, INT_MAX, wrap_int. intros Hz.
  rewrite Z.mod_small; lia.
Qed.

Lemma wrap_int64_range z : INT64_MIN ≤ wrap_int64 z ≤ INT64_MAX.
Proof.
  unfold INT64_MIN, INT64_MAX, wrap_int64.
  pose proof (Z.mod_pos_bound (z + 2 ^ 63) (2 ^ 64)). lia.
Qed.

Lemma string_app_assoc (s1 s2 s3 : string) :
  (s1 +:+ s2) +:+ s3 = s1 +:+ (s2 +:+ s3).
Proof.
  induction s1 as [|c s1 IH]; [done|].
  change (String c ((s1 +:+ s2) +:+ s3) = String c (s1 +:+ (s2 +:+ s3))).
  by f_equal.
Qed.

Lemma string_app_nil_r (s : string) : s +:+ "" = s.
Proof.
  induction s as [|c s IH]; [done|].
  change (String c (s +:+ "") = String c s). by f_equal.
Qed.

(** ** The symbolisation loop *)

Section SymbolizeFacts.

Variable Symbolize : Z → option string.

Lemma failed_frames_nonneg frames : 0 ≤ failed_frames Symbolize frames.
Proof. unfold failed_frames. lia. Qed.

Lemma failed_frames_cons pc frames :
  failed_frames Symbolize (pc :: frames)
  = (if Symbolize pc is None then 1 else 0) + failed_frames Symbolize frames.
Proof.
  unfold failed_frames. rewrite filter_cons.
  destruct (decide (Symbolize pc = None)) as [->|Hne]; simpl; [lia|].
  destruct (Symbolize pc); [lia | done].
Qed.

Lemma symbolize_frame_key acc pc :
  (symbolize_frame Symbolize acc pc).1 = acc.1 +:+ frame_line Symbolize pc.
Proof.
  destruct acc as [sstream failed]. unfold symbolize_frame, frame_line.
  by destruct (Symbolize pc).
Qed.

Lemma symbolize_loop_key frames acc :
  (foldl (symbolize_frame Symbolize) acc frames).1
  = acc.1 +:+ concat_strings (frame_line Symbolize <$> frames).
Proof.
  revert acc. induction frames as [|pc frames IH]; intros acc.
  - simpl. by rewrite string_app_nil_r.
  - cbn [foldl]. rewrite IH, symbolize_frame_key, string_app_assoc. done.
Qed.

Lemma symbolize_loop_failed frames acc :
  INT_MIN ≤ acc.2 →
  acc.2 + failed_frames Symbolize frames ≤ INT_MAX →
  (foldl (symbolize_frame Symbolize) acc frames).2
  = acc.2 + failed_frames Symbolize frames.
Proof.
  revert acc.
  induction frames as [|pc frames IH]; intros [sstream failed] Hlo Hhi.
  - unfold failed_frames. simpl. lia.
  - rewrite failed_frames_cons in Hhi |- *. cbn [foldl]. simpl in Hlo, Hhi.
    pose proof (failed_frames_nonneg frames).
    unfold symbolize_frame at 2.
    destruct (Symbolize pc) as [buf|].
    + rewrite IH; simpl; lia.
    + rewrite IH; simpl; rewrite ?wrap_int_small; lia.
Qed.

Lemma symbolize_stack_key frames failed :
  (symbolize_stack Symbolize frames failed).1
  = concat_strings (frame_line Symbolize <$> frames).
Proof. unfold symbolize_stack. by rewrite symbolize_loop_key. Qed.

Lemma symbolize_stack_failed frames failed :
  INT_MIN ≤ failed →
  failed + failed_frames Symbolize frames ≤ INT_MAX →
  (symbolize_stack Symbolize frames failed).2
  = failed + failed_frames Symbolize frames.
Proof. intros. unfold symbolize_stack. by rewrite symbolize_loop_failed. Qed.

Lemma profile_visit_discarded only_growth st s :
  retained only_growth s = false →
  profile_visit Symbolize only_growth st s = st.
Proof.
  unfold retained, profile_visit. intros Hr.
  destruct (decide (sample_count s ≤ 0)) as [Hc|Hc].
  - by rewrite (bool_decide_true _ Hc).
  - rewrite (bool_decide_false _ Hc).
    rewrite bool_decide_true in Hr by lia.
    destruct only_growth, (is_censored s); simpl in *; done.
Qed.

Lemma profile_visit_retained only_growth st s :
  retained only_growth s = true →
  profile_visit Symbolize only_growth st s
  = mkAggState
      (<[stack_key Symbolize s :=
           profile_entry (map_slot (samples_map st) (stack_key Symbolize s)) s]>
         (samples_map st))
      (symbolize_stack Symbolize (sample_frames s)
         (failed_symbolizations st)).2.
Proof.
  unfold retained, profile_visit. intros Hr.
  apply andb_true_iff in Hr as [Hc Hg].
  apply bool_decide_eq_true in Hc.
  rewrite bool_decide_false by lia.
  replace (only_growth && negb (is_censored s)) with false
    by (destruct only_growth, (is_censored s); done).
  pose proof (symbolize_stack_key (sample_frames s)
                (failed_symbolizations st)) as Hk.
  destruct (symbolize_stack _ _ _) as [key failed]. simpl in Hk. subst key.
  done.
Qed.

Lemma snapshot_visit_eq st cnt size frames :
  let key := concat_strings (frame_line Symbolize <$> frames) in
  snapshot_visit Symbolize st cnt size frames
  = mkAggState
      (<[key := snapshot_entry (map_slot (samples_map st) key) cnt size]>
         (samples_map st))
      (symbolize_stack Symbolize frames (failed_symbolizations st)).2.
Proof.
  unfold snapshot_visit. simpl.
  pose proof (symbolize_stack_key frames (failed_symbolizations st)) as Hk.
  destruct (symbolize_stack _ _ _) as [key failed]. simpl in Hk. subst key.
  done.
Qed.

End SymbolizeFacts.

(** ** Totals over the entries of the map *)

Lemma sum_Z_cons x l : sum_Z (x :: l) = x + sum_Z l.
Proof. done. Qed.

Lemma sum_Z_Permutation l1 l2 : l1 ≡ₚ l2 → sum_Z l1 = sum_Z l2.
Proof. induction 1; simpl; lia. Qed.

Lemma total_bytes_Permutation l1 l2 :
  l1 ≡ₚ l2 → total_bytes l1 = total_bytes l2.
Proof. intros H. unfold total_bytes. apply sum_Z_Permutation. by rewrite H. Qed.

Lemma total_count_Permutation l1 l2 :
  l1 ≡ₚ l2 → total_count l1 = total_count l2.
Proof. intros H. unfold total_count. apply sum_Z_Permutation. by rewrite H. Qed.

Lemma map_total_insert (f : SampleInfo → Z) (m : gmap string SampleInfo) k v :
  f SampleInfo_zero = 0 →
  sum_Z ((λ e, f e.2) <$> map_to_list (<[k := v]> m))
  = sum_Z ((λ e, f e.2) <$> map_to_list m) - f (map_slot m k) + f v.
Proof.
  intros Hz. unfold map_slot, SampleInfo_zero in *.
  destruct (m !! k) as [x|] eqn:E; simpl.
  - rewrite <- (insert_delete_eq m k v).
    rewrite (sum_Z_Permutation _ ((λ e, f e.2) <$> (k, v) :: map_to_list (delete k m))).
    2: { apply fmap_Permutation, map_to_list_insert, lookup_delete_eq. }
    rewrite (sum_Z_Permutation ((λ e, f e.2) <$> map_to_list m)
               ((λ e, f e.2) <$> (k, x) :: map_to_list (delete k m))).
    2: { apply fmap_Permutation. symmetry. by apply map_to_list_delete. }
    rewrite !fmap_cons, !sum_Z_cons. simpl. lia.
  - rewrite (sum_Z_Permutation _ ((λ e, f e.2) <$> (k, v) :: map_to_list m)).
    2: { by apply fmap_Permutation, map_to_list_insert. }
    rewrite !fmap_cons, !sum_Z_cons. simpl. lia.
Qed.

Lemma map_total_nonneg (f : SampleInfo → Z) (m : gmap string SampleInfo) :
  map_Forall (λ _ info, 0 ≤ f info) m →
  0 ≤ sum_Z ((λ e, f e.2) <$> map_to_list m).
Proof.
  intros H. apply map_Forall_to_list in H.
  induction H as [|[k x] l Hx _ IH]; [done|].
  rewrite fmap_cons, sum_Z_cons. simpl in *. lia.
Qed.

Lemma map_slot_le_total (f : SampleInfo → Z) (m : gmap string SampleInfo) k :
  f SampleInfo_zero = 0 →
  map_Forall (λ _ info, 0 ≤ f info) m →
  0 ≤ f (map_slot m k) ≤ sum_Z ((λ e, f e.2) <$> map_to_list m).
Proof.
  intros Hz H. unfold map_slot, SampleInfo_zero in *.
  destruct (m !! k) as [x|] eqn:E; simpl.
  - pose proof (H k x E) as Hx. simpl in Hx.
    rewrite (sum_Z_Permutation ((λ e, f e.2) <$> map_to_list m)
               ((λ e, f e.2) <$> (k, x) :: map_to_list (delete k m))).
    2: { apply fmap_Permutation. symmetry. by apply map_to_list_delete. }
    rewrite fmap_cons, sum_Z_cons. simpl.
    assert (0 ≤ sum_Z ((λ e, f e.2) <$> map_to_list (delete k m))).
    { apply map_total_nonneg. intros j y Hj.
      apply lookup_delete_Some in Hj as [_ Hj]. by apply (H j y). }
    lia.
  - rewrite Hz. split; [lia|]. by apply map_total_nonneg.
Qed.

(** One map update keeps a total exact while it fits in 64 bits. *)
Lemma slot_update_total (f : SampleInfo → Z) (m : gmap string SampleInfo)
    k v d :
  f SampleInfo_zero = 0 →
  map_Forall (λ _ info, 0 ≤ f info) m →
  0 ≤ d →
  sum_Z ((λ e, f e.2) <$> map_to_list m) + d ≤ INT64_MAX →
  f v = wrap_int64 (f (map_slot m k) + d) →
  map_Forall (λ _ info, 0 ≤ f info) (<[k := v]> m)
  ∧ sum_Z ((λ e, f e.2) <$> map_to_list (<[k := v]> m))
    = sum_Z ((λ e, f e.2) <$> map_to_list m) + d.
Proof.
  intros Hz Hm Hd Hmax Hv.
  pose proof (map_slot_le_total f m k Hz Hm) as Hold.
  rewrite wrap_int64_small in Hv
    by (unfold INT64_MIN, INT64_MAX in *; lia).
  split.
  - apply map_Forall_insert_2; [lia | done].
  - rewrite map_total_insert by done. lia.
Qed.

(** ** The tcmalloc profile loop *)

Section ProfileFacts.

Variable Symbolize : Z → option string.

Lemma profile_entry_snapshot_entry old s :
  profile_entry old s = snapshot_entry old 1 (allocated_size s).
Proof. done. Qed.

Lemma retained_samples_cons only_growth s l :
  retained_samples only_growth (s :: l)
  = if retained only_growth s
    then s :: retained_samples only_growth l
    else retained_samples only_growth l.
Proof.
  unfold retained_samples. rewrite filter_cons.
  destruct (retained only_growth s); by case_decide.
Qed.

Lemma retained_bytes_nonneg only_growth l :
  Forall size_in_range l → 0 ≤ retained_bytes only_growth l.
Proof.
  unfold retained_bytes. induction 1 as [|s l Hs _ IH]; [done|].
  rewrite retained_samples_cons. destruct (retained only_growth s); [|done].
  rewrite fmap_cons, sum_Z_cons. unfold size_in_range in Hs. lia.
Qed.

Lemma retained_count_nonneg only_growth l : 0 ≤ retained_count only_growth l.
Proof. unfold retained_count. lia. Qed.

(** Discarded samples can be removed from the profile beforehand. *)
Lemma profile_fold_retained only_growth l st :
  foldl (profile_visit Symbolize only_growth) st l
  = foldl (profile_visit Symbolize only_growth) st
      (retained_samples only_growth l).
Proof.
  revert st. induction l as [|s l IH]; intros st; [done|].
  rewrite retained_samples_cons. cbn [foldl].
  destruct (retained only_growth s) eqn:Hr.
  - cbn [foldl]. apply IH.
  - rewrite profile_visit_discarded by done. apply IH.
Qed.

Lemma profile_fold_positive only_growth l st :
  foldl (profile_visit Symbolize only_growth) st l
  = foldl (profile_visit Symbolize only_growth) st
      (filter (λ s, 0 < sample_count s) l).
Proof.
  revert st. induction l as [|s l IH]; intros st; [done|].
  rewrite filter_cons. cbn [foldl]. case_decide as Hc.
  - cbn [foldl]. apply IH.
  - rewrite profile_visit_discarded; [apply IH|].
    unfold retained. by rewrite bool_decide_false.
Qed.

(** While a total fits in 64 bits the loop keeps it exact.  [f] is the
    field of the entry and [d] what a retained sample adds to it. *)
Lemma profile_fold_total (f : SampleInfo → Z) (d : ProfileSample → Z)
    only_growth l st :
  f SampleInfo_zero = 0 →
  (∀ old s, f (profile_entry old s) = wrap_int64 (f old + d s)) →
  Forall (λ s, 0 ≤ d s) l →
  map_Forall (λ _ info, 0 ≤ f info) (samples_map st) →
  sum_Z ((λ e, f e.2) <$> map_to_list (samples_map st))
    + sum_Z (d <$> retained_samples only_growth l) ≤ INT64_MAX →
  let st' := foldl (profile_visit Symbolize only_growth) st l in
  map_Forall (λ _ info, 0 ≤ f info) (samples_map st')
  ∧ sum_Z ((λ e, f e.2) <$> map_to_list (samples_map st'))
    = sum_Z ((λ e, f e.2) <$> map_to_list (samples_map st))
      + sum_Z (d <$> retained_samples only_growth l).
Proof.
  intros Hz Hf. revert st.
  induction l as [|s l IH]; intros st Hd Hnn Hmax.
  { simpl. split; [done | lia]. }
  apply Forall_cons in Hd as [Hs Hd].
  assert (0 ≤ sum_Z (d <$> retained_samples only_growth l)) as Hrest.
  { clear -Hd. induction Hd as [|x l Hx _ IH]; [done|].
    rewrite retained_samples_cons. destruct (retained only_growth x); [|done].
    rewrite fmap_cons, sum_Z_cons. lia. }
  rewrite retained_samples_cons in Hmax |- *. cbn [foldl].
  destruct (retained only_growth s) eqn:Hr.
  - rewrite fmap_cons, sum_Z_cons in Hmax |- *.
    rewrite profile_visit_retained by done.
    destruct (slot_update_total f (samples_map st) (stack_key Symbolize s)
                (profile_entry
                   (map_slot (samples_map st) (stack_key Symbolize s)) s)
                (d s)) as [Hnn' Hsum']; [done | done | done | lia | done |].
    match goal with |- context [foldl _ ?x l] => set (st1 := x) end.
    destruct (IH st1 Hd) as [Hnn'' Hsum''].
    + exact Hnn'.
    + subst st1. cbn [samples_map]. rewrite Hsum'. lia.
    + split; [done|]. rewrite Hsum''. subst st1. cbn [samples_map].
      rewrite Hsum'. lia.
  - rewrite profile_visit_discarded by done. by apply IH.
Qed.

Lemma sum_Z_const_one {A} (l : list A) :
  sum_Z ((λ _, 1) <$> l) = Z.of_nat (length l).
Proof.
  induction l as [|x l IH]; [done|].
  rewrite fmap_cons, sum_Z_cons, IH. cbn [length]. lia.
Qed.

(** The two instances: cumulative bytes and cumulative count. *)
Lemma AggregateProfile_bytes profile only_growth :
  Forall size_in_range profile →
  retained_bytes only_growth profile ≤ INT64_MAX →
  let m := samples_map (AggregateProfile Symbolize profile only_growth) in
  map_Forall (λ _ info, 0 ≤ bytes info) m
  ∧ total_bytes (map_to_list m) = retained_bytes only_growth profile.
Proof.
  intros Hsz Hmax.
  assert (Forall (λ s, 0 ≤ allocated_size s) profile) as Hd.
  { eapply Forall_impl; [exact Hsz|]. unfold size_in_range. intros; lia. }
  destruct (profile_fold_total bytes allocated_size only_growth profile
              AggState_init eq_refl (λ _ _, eq_refl) Hd) as [H1 H2].
  - apply map_Forall_empty.
  - cbn [samples_map AggState_init]. rewrite map_to_list_empty. exact Hmax.
  - split; [exact H1|]. unfold total_bytes, AggregateProfile.
    rewrite H2. cbn [samples_map AggState_init].
    rewrite map_to_list_empty. done.
Qed.

Lemma AggregateProfile_count profile only_growth :
  retained_count only_growth profile ≤ INT64_MAX →
  let m := samples_map (AggregateProfile Symbolize profile only_growth) in
  map_Forall (λ _ info, 0 ≤ count info) m
  ∧ total_count (map_to_list m) = retained_count only_growth profile.
Proof.
  intros Hmax. unfold retained_count in *.
  rewrite <- sum_Z_const_one in Hmax |- *.
  assert (Forall (λ _ : ProfileSample, 0 ≤ 1) profile) as Hd
    by by apply Forall_forall.
  destruct (profile_fold_total count (λ _, 1) only_growth profile
              AggState_init eq_refl (λ _ _, eq_refl) Hd) as [H1 H2].
  - apply map_Forall_empty.
  - cbn [samples_map AggState_init]. rewrite map_to_list_empty. exact Hmax.
  - split; [exact H1|]. unfold total_count, AggregateProfile.
    rewrite H2. cbn [samples_map AggState_init].
    rewrite map_to_list_empty. done.
Qed.

End ProfileFacts.

(** ** Ranking *)

Section RankingFacts.

Variable order : SampleOrder.

Lemma sample_greater_false a b :
  sample_greater order b a = false ↔ key_ge order a b.
Proof.
  unfold sample_greater, key_ge, sort_key.
  destruct order; rewrite bool_decide_eq_false; lia.
Qed.

#[local] Instance key_ge_trans : Transitive (key_ge order).
Proof. unfold key_ge. intros a b c. lia. Qed.

#[local] Instance key_ge_total : Total (key_ge order).
Proof. unfold key_ge. intros a b. lia. Qed.

Lemma StronglySorted_lookup_later {A} (R : relation A) l i n a b :
  StronglySorted R l →
  l !! i = Some a → l !! (i + S n)%nat = Some b → R a b.
Proof.
  intros Hs. revert i. induction Hs as [|x l Hs IH Hx]; intros i Ha Hb.
  - by rewrite lookup_nil in Ha.
  - destruct i as [|i]; simpl in *.
    + inversion Ha; subst. rewrite Forall_forall in Hx.
      apply Hx. eapply list_elem_of_lookup_2, Hb.
    + by apply (IH i).
Qed.

Lemma is_sorted_StronglySorted l :
  StronglySorted (key_ge order) l → is_sorted (sample_greater order) l.
Proof.
  intros Hs i n a b Ha Hb. apply sample_greater_false.
  destruct n as [|n].
  - rewrite Nat.add_0_r in Hb. assert (a = b) as -> by congruence.
    unfold key_ge. lia.
  - by eapply StronglySorted_lookup_later.
Qed.

(** The contract can always be met. *)
Lemma sort_samples_run_sorts l :
  SortSamplesByOrder order l (sort_samples_run order l).
Proof.
  split.
  - symmetry. apply merge_sort_Permutation.
  - apply is_sorted_StronglySorted, StronglySorted_merge_sort; apply _.
Qed.

Lemma SortSamplesByOrder_adjacent samples samples' i a b :
  SortSamplesByOrder order samples samples' →
  samples' !! i = Some a → samples' !! S i = Some b →
  sort_key order b ≤ sort_key order a.
Proof.
  intros [_ Hs] Ha Hb. apply sample_greater_false.
  apply (Hs i 1%nat); [done|]. by rewrite Nat.add_1_r.
Qed.

End RankingFacts.

(** Both pipelines produce a result whenever their loop does. *)
Lemma AggregateAndSortProfile_run_ok Symbolize profile only_growth order :
  AggregateAndSortProfile Symbolize profile only_growth order
    (AggregateAndSortProfile_run Symbolize profile only_growth order).
Proof.
  eexists. split; [unfold map_entries; reflexivity|].
  apply sort_samples_run_sorts.
Qed.

Lemma AggregateAndSortProfile_Permutation
    Symbolize profile only_growth order result :
  AggregateAndSortProfile Symbolize profile only_growth order result →
  result ≡ₚ map_to_list
              (samples_map (AggregateProfile Symbolize profile only_growth)).
Proof. intros (vec & Hvec & Hperm & _). unfold map_entries in Hvec. by rewrite <- Hperm. Qed.

(** ** The claims about aggregation *)

(** C1, as stated, fails for the tcmalloc profile back end: a retained
    sample with occurrence count 3 raises the count of its entry by 1,
    not by 3. *)
Lemma C1_count_by_sample_count_counterexample :
  let s := mkProfileSample 3 100 true 0 [] in
  let st := profile_visit (λ _, None) false AggState_init s in
  retained false s = true
  ∧ samples_map st !! EmptyString = Some (mkSampleInfo 100 1)
  ∧ count (map_slot (samples_map st) EmptyString)
    ≠ count (map_slot (samples_map AggState_init) EmptyString)
      + sample_count s.
Proof. vm_compute. split_and!; [done | done | discriminate]. Qed.

(** C1 (amended): for every retained sample the tcmalloc profile back end
    adds the sample's allocated size to the bytes of the entry filed under
    the sample's stack key and raises that entry's count by 1; the
    gperftools back end adds, for every record it visits, the record's
    size to the bytes and the record's count to the count.  Both sums are
    taken in 64-bit arithmetic, and no other entry changes. *)
Theorem C1_entry_update (Symbolize : Z → option string) (only_growth : bool)
    (st : AggState) (s : ProfileSample) (cnt size : Z) (frames : list Z) :
  retained only_growth s = true →
  (let key := stack_key Symbolize s in
   let old := map_slot (samples_map st) key in
   let st' := profile_visit Symbolize only_growth st s in
   samples_map st' !! key
     = Some (mkSampleInfo (wrap_int64 (bytes old + allocated_size s))
                          (wrap_int64 (count old + 1)))
   ∧ ∀ k, k ≠ key → samples_map st' !! k = samples_map st !! k)
  ∧
  (let key := concat_strings (frame_line Symbolize <$> frames) in
   let old := map_slot (samples_map st) key in
   let st' := snapshot_visit Symbolize st cnt size frames in
   samples_map st' !! key
     = Some (mkSampleInfo (wrap_int64 (bytes old + size))
                          (wrap_int64 (count old + cnt)))
   ∧ ∀ k, k ≠ key → samples_map st' !! k = samples_map st !! k).
Proof.
  intros Hr. split; cbv zeta.
  - rewrite profile_visit_retained by done. cbn [samples_map]. split.
    + by rewrite lookup_insert_eq.
    + intros k Hk. by rewrite lookup_insert_ne.
  - rewrite snapshot_visit_eq. cbn [samples_map]. split.
    + by rewrite lookup_insert_eq.
    + intros k Hk. by rewrite lookup_insert_ne.
Qed.

(** C2: when the byte totals of the retained samples fit the 64-bit
    accumulator, the cumulative bytes of the entries returned by
    [AggregateAndSortProfile] add up to the byte totals of exactly the
    samples with occurrence count > 0 (and censored, in growth-only
    mode); a result always exists. *)
Theorem C2_total_bytes (Symbolize : Z → option string)
    (profile : list ProfileSample) (only_growth : bool) (order : SampleOrder) :
  Forall size_in_range profile →
  retained_bytes only_growth profile ≤ INT64_MAX →
  (∃ result, AggregateAndSortProfile Symbolize profile only_growth order result)
  ∧ ∀ result,
      AggregateAndSortProfile Symbolize profile only_growth order result →
      total_bytes result = retained_bytes only_growth profile.
Proof.
  intros Hsz Hmax. split.
  - eexists. apply AggregateAndSortProfile_run_ok.
  - intros result Hres.
    rewrite (total_bytes_Permutation _ _
               (AggregateAndSortProfile_Permutation _ _ _ _ _ Hres)).
    by apply AggregateProfile_bytes.
Qed.

(** C3: samples with occurrence count ≤ 0 contribute nothing, in either
    mode: removing them from the profile leaves the aggregation state
    unchanged; and, while the totals fit the 64-bit accumulators, every
    entry returned has cumulative count ≥ 0 and cumulative bytes ≥ 0. *)
Theorem C3_nonpositive_samples_ignored (Symbolize : Z → option string)
    (profile : list ProfileSample) (only_growth : bool) (order : SampleOrder) :
  Forall size_in_range profile →
  retained_bytes only_growth profile ≤ INT64_MAX →
  retained_count only_growth profile ≤ INT64_MAX →
  (∀ st s, sample_count s ≤ 0 →
     profile_visit Symbolize only_growth st s = st)
  ∧ AggregateProfile Symbolize profile only_growth
    = AggregateProfile Symbolize
        (filter (λ s, 0 < sample_count s) profile) only_growth
  ∧ ∀ result,
      AggregateAndSortProfile Symbolize profile only_growth order result →
      Forall (λ e : Sample, 0 ≤ count e.2 ∧ 0 ≤ bytes e.2) result.
Proof.
  intros Hsz Hb Hc. split_and!.
  - intros st s Hs. apply profile_visit_discarded.
    unfold retained. by rewrite bool_decide_false by lia.
  - apply profile_fold_positive.
  - intros result Hres.
    apply AggregateAndSortProfile_Permutation in Hres. rewrite Hres.
    destruct (AggregateProfile_bytes Symbolize profile only_growth Hsz Hb)
      as [Hnb _].
    destruct (AggregateProfile_count Symbolize profile only_growth Hc)
      as [Hnc _].
    apply Forall_forall. intros [k info] Hin.
    apply elem_of_map_to_list in Hin. split.
    + by apply (Hnc k info).
    + by apply (Hnb k info).
Qed.

Lemma C1_entry_update_witness :
  let st := AggregateProfile demo_symbolize demo_profile false in
  (samples_map (profile_visit demo_symbolize true st
                  (mkProfileSample 4 8 true 1 [9]))
     !! failed_line = Some (mkSampleInfo 58 2))
  ∧ (samples_map (snapshot_visit demo_symbolize st 4 8 [9])
     !! failed_line = Some (mkSampleInfo 58 5)).
Proof.
  intros st.
  destruct (C1_entry_update demo_symbolize true st
              (mkProfileSample 4 8 true 1 [9]) 4 8 [9] eq_refl)
    as [[H1 _] [H2 _]].
  split; [exact H1 | exact H2].
Defined.

Lemma C2_total_bytes_witness :
  total_bytes (AggregateAndSortProfile_run demo_symbolize demo_profile false
                 kBytes) = 450.
Proof.
  refine (proj2 (C2_total_bytes demo_symbolize demo_profile false kBytes
                   _ _) _ (AggregateAndSortProfile_run_ok _ _ _ _)).
  - unfold demo_profile, size_in_range. repeat constructor; simpl; lia.
  - vm_compute. discriminate.
Defined.

Lemma C3_nonpositive_samples_ignored_witness :
  Forall (λ e : Sample, 0 ≤ count e.2 ∧ 0 ≤ bytes e.2)
    (AggregateAndSortProfile_run demo_symbolize demo_profile true kCount).
Proof.
  refine (proj2 (proj2 (C3_nonpositive_samples_ignored demo_symbolize
                          demo_profile true kCount _ _ _))
            _ (AggregateAndSortProfile_run_ok _ _ _ _)).
  - unfold demo_profile, size_in_range. repeat constructor; simpl; lia.
  - vm_compute. discriminate.
  - vm_compute. discriminate.
Defined.

(** C4: in growth-only mode a sample that is not censored leaves the
    aggregation state untouched, so only censored samples reach the map;
    with one censored sample (bytes 50, count 1) and one non-censored
    sample (bytes 999, count 1), on any stacks and in either order, the
    result consists of the censored sample's entry alone. *)
Theorem C4_growth_only_discards_uncensored (Symbolize : Z → option string) :
  (∀ st s, is_censored s = false →
     profile_visit Symbolize true st s = st)
  ∧ (∀ profile,
       AggregateProfile Symbolize profile true
       = AggregateProfile Symbolize
           (filter (λ s, is_censored s = true) profile) true)
  ∧ (∀ d1 stk1 d2 stk2 profile order result,
       let s1 := mkProfileSample 1 50 true d1 stk1 in
       let s2 := mkProfileSample 1 999 false d2 stk2 in
       profile = [s1; s2] ∨ profile = [s2; s1] →
       AggregateAndSortProfile Symbolize profile true order result →
       result = [(stack_key Symbolize s1, mkSampleInfo 50 1)]).
Proof.
  split_and!.
  - intros st s Hs. apply profile_visit_discarded.
    unfold retained. rewrite Hs. apply andb_false_r.
  - intros profile. unfold AggregateProfile. generalize AggState_init.
    induction profile as [|s l IH]; intros st; [done|].
    rewrite filter_cons. cbn [foldl]. destruct (is_censored s) eqn:Hs.
    + rewrite decide_True by done. cbn [foldl]. apply IH.
    + rewrite decide_False by done.
      rewrite profile_visit_discarded; [apply IH|].
      unfold retained. rewrite Hs. apply andb_false_r.
  - intros d1 stk1 d2 stk2 profile order result s1 s2 Hp Hres.
    apply AggregateAndSortProfile_Permutation in Hres.
    assert (samples_map (AggregateProfile Symbolize profile true)
            = {[ stack_key Symbolize s1 := mkSampleInfo 50 1 ]}) as Hm.
    { unfold AggregateProfile.
      destruct Hp as [-> | ->]; cbn [foldl].
      - rewrite (profile_visit_retained _ _ _ s1) by done.
        rewrite (profile_visit_discarded _ _ _ s2) by done.
        cbn [samples_map AggState_init]. unfold map_slot.
        rewrite lookup_empty. done.
      - rewrite (profile_visit_discarded _ _ _ s2) by done.
        rewrite (profile_visit_retained _ _ _ s1) by done.
        cbn [samples_map AggState_init]. unfold map_slot.
        rewrite lookup_empty. done. }
    rewrite Hm, map_to_list_singleton in Hres.
    by apply Permutation_singleton_r in Hres.
Qed.

Lemma C4_growth_only_discards_uncensored_witness :
  AggregateAndSortProfile_run demo_symbolize
    [mkProfileSample 1 50 true 1 [1]; mkProfileSample 1 999 false 1 [2]]
    true kBytes
  = [("foo" +:+ endl, mkSampleInfo 50 1)].
Proof.
  refine (proj2 (proj2 (C4_growth_only_discards_uncensored demo_symbolize))
            1 [1] 1 [2] _ kBytes _ (or_introl eq_refl)
            (AggregateAndSortProfile_run_ok _ _ _ _)).
Defined.

(** ** The claims about ranking *)

(** C5: [SortSamplesByOrder] always has an outcome, and in every outcome
    each adjacent pair is non-increasing in cumulative bytes for the
    order by bytes, and in cumulative count for the order by count. *)
Theorem C5_sort_non_increasing (order : SampleOrder) (samples : list Sample) :
  (∃ samples', SortSamplesByOrder order samples samples')
  ∧ ∀ samples' i a b,
      SortSamplesByOrder order samples samples' →
      samples' !! i = Some a → samples' !! S i = Some b →
      match order with
      | kBytes => bytes b.2 ≤ bytes a.2
      | kCount => count b.2 ≤ count a.2
      end.
Proof.
  split.
  - eexists. apply sort_samples_run_sorts.
  - intros samples' i a b Hs Ha Hb.
    pose proof (SortSamplesByOrder_adjacent order _ _ _ _ _ Hs Ha Hb) as H.
    by destruct order.
Qed.

Lemma C5_sort_non_increasing_witness :
  let samples := [("a", mkSampleInfo 7 1); ("b", mkSampleInfo 9 4);
                  ("c", mkSampleInfo 9 2)] in
  sort_samples_run kCount samples
  = [("b", mkSampleInfo 9 4); ("c", mkSampleInfo 9 2); ("a", mkSampleInfo 7 1)]
  ∧ count (mkSampleInfo 7 1) ≤ count (mkSampleInfo 9 2).
Proof.
  intros samples. split; [reflexivity|].
  exact (proj2 (C5_sort_non_increasing kCount samples)
           (sort_samples_run kCount samples) 1%nat
           ("c", mkSampleInfo 9 2) ("a", mkSampleInfo 7 1)
           (sort_samples_run_sorts kCount samples) eq_refl eq_refl).
Defined.

(** ** The claims about rendering *)

Lemma average_bytes_total info :
  average_bytes info = Some (average_column info).
Proof.
  unfold average_bytes, average_column, int64_div.
  case_bool_decide as Hc; [done|].
  rewrite bool_decide_false by lia.
  rewrite bool_decide_false by lia. done.
Qed.

Lemma concat_strings_app l1 l2 :
  concat_strings (l1 ++ l2) = concat_strings l1 +:+ concat_strings l2.
Proof.
  induction l1 as [|x l1 IH]; [done|].
  change (x +:+ concat_strings (l1 ++ l2)
          = (x +:+ concat_strings l1) +:+ concat_strings l2).
  by rewrite IH, string_app_assoc.
Qed.

Lemma string_app_cons_ne_nil (s1 s2 : string) c : s1 +:+ String c s2 ≠ "".
Proof. destruct s1; discriminate. Qed.

Section RenderFacts.

Variable EscapeForHtmlToString : string → string.

(** The row loop never leaves the vector and emits the rows of the
    first [n] entries, in order. *)
Lemma emit_rows_take (samples : list Sample) (output : string) (n : nat) :
  (n ≤ length samples)%nat →
  foldl (emit_row EscapeForHtmlToString samples) (Some output) (seq 0 n)
  = Some (output +:+
          concat_strings
            (rendered_row EscapeForHtmlToString <$> take n samples)).
Proof.
  induction n as [|n IH]; intros Hn.
  - simpl. by rewrite string_app_nil_r.
  - rewrite seq_S, foldl_app, IH by lia. cbn [foldl Nat.add].
    destruct (lookup_lt_is_Some_2 samples n) as [entry He]; [lia|].
    rewrite (take_S_r _ _ _ He), fmap_app, concat_strings_app.
    unfold emit_row. cbn [mbind option_bind]. rewrite He. cbn [mbind option_bind].
    rewrite average_bytes_total. cbn [mbind option_bind fmap list_fmap].
    unfold rendered_row. cbn [concat_strings foldr].
    by rewrite string_app_nil_r, string_app_assoc.
Qed.

Lemma truncation_notice_ne_nil n : truncation_notice n ≠ "".
Proof.
  unfold truncation_notice.
  destruct (pretty n); discriminate.
Qed.

End RenderFacts.

(** C8: the average-bytes column is always defined; it is 0 when the
    cumulative count is 0, where no division takes place although the
    quotient itself would be undefined; and for a positive count and a
    cumulative byte total that is not negative it is
    floor(bytes / count). *)
Theorem C8_average_bytes (info : SampleInfo) :
  is_Some (average_bytes info)
  ∧ (count info = 0 →
     average_bytes info = Some 0
     ∧ int64_div (bytes info) (count info) = None)
  ∧ (0 < count info → 0 ≤ bytes info →
     average_bytes info = Some (bytes info `div` count info)).
Proof.
  split_and!.
  - rewrite average_bytes_total. by eexists.
  - intros Hc. unfold average_bytes, int64_div. rewrite Hc. done.
  - intros Hc Hb. rewrite average_bytes_total. unfold average_column.
    rewrite bool_decide_false by lia. f_equal.
    by apply Z.quot_div_nonneg.
Qed.

Lemma C8_average_bytes_witness :
  average_bytes (mkSampleInfo 7 0) = Some 0
  ∧ average_bytes (mkSampleInfo 400 3) = Some 133.
Proof.
  split.
  - exact (proj1 (proj1 (proj2 (C8_average_bytes (mkSampleInfo 7 0)))
                    eq_refl)).
  - refine (proj2 (proj2 (C8_average_bytes (mkSampleInfo 400 3))) _ _);
      simpl; lia.
Defined.

(** ** The gperftools snapshot loop *)

Section SnapshotFacts.

Variable Symbolize : Z → option string.

Lemma snapshot_loop_sentinel rest st :
  snapshot_loop Symbolize (0 :: rest) st = Some st.
Proof. by simp snapshot_loop. Qed.

Lemma snapshot_loop_record cnt size frames rest st :
  cnt ≠ 0 →
  snapshot_loop Symbolize
    (cnt :: size :: Z.of_nat (length frames) :: frames ++ rest) st
  = snapshot_loop Symbolize rest
      (snapshot_visit Symbolize st cnt size frames).
Proof.
  intros Hc. simp snapshot_loop.
  rewrite (bool_decide_false _ Hc). simpl.
  destruct (decide _) as [Hle|Hgt]; simpl.
  - by rewrite Nat2Z.id, drop_app_length, take_app_length.
  - rewrite Nat2Z.id, length_app in Hgt. lia.
Qed.

Lemma flatten_samples_cons s l :
  flatten_samples (s :: l)
  = snap_count s :: snap_size s :: Z.of_nat (length (snap_stack s))
      :: snap_stack s ++ flatten_samples l.
Proof. done. Qed.

(** The loop visits the records that precede the first zero count word,
    in order, and stops there whatever follows. *)
Lemma snapshot_loop_flatten pre rest st :
  Forall (λ s, snap_count s ≠ 0) pre →
  snapshot_loop Symbolize (flatten_samples pre ++ 0 :: rest) st
  = Some (foldl (snapshot_visit_sample Symbolize) st pre).
Proof.
  intros Hpre. revert st.
  induction Hpre as [|s pre Hs _ IH]; intros st.
  - apply snapshot_loop_sentinel.
  - rewrite flatten_samples_cons. cbn [app foldl].
    rewrite <- app_assoc, snapshot_loop_record by done. apply IH.
Qed.

(** Whether the loop runs off the array depends on the array alone. *)
Lemma snapshot_loop_is_Some (Symbolize' : Z → option string) samples st st' :
  is_Some (snapshot_loop Symbolize samples st) →
  is_Some (snapshot_loop Symbolize' samples st').
Proof.
  revert st'. funelim (snapshot_loop Symbolize samples st); intros st'.
  all: simp snapshot_loop; rewrite ?Heq; simpl; try done.
  rewrite Heq0. simpl. rewrite Heq. simpl. apply H.
Qed.

End SnapshotFacts.

(** ** The claims about symbolisation failures and the snapshot back end *)

(** C9: a frame that does not symbolise appends the placeholder line to
    the stack key and, below [INT_MAX], raises the failure counter by
    exactly 1; a retained profile sample and a snapshot record are filed
    under the concatenation of their frame lines whatever fails, with the
    counter raised by the number of failing frames; a stack of three
    failing frames gives a key of three placeholder lines and a counter
    of 3; and the loops never stop because of a failure. *)
Theorem C9_failed_symbolization (Symbolize : Z → option string) :
  (∀ sstream failed pc,
     Symbolize pc = None →
     frame_line Symbolize pc = "Failed to symbolize" +:+ endl
     ∧ (symbolize_frame Symbolize (sstream, failed) pc).1
       = sstream +:+ "Failed to symbolize" +:+ endl
     ∧ (INT_MIN ≤ failed < INT_MAX →
        (symbolize_frame Symbolize (sstream, failed) pc).2 = failed + 1))
  ∧ (∀ only_growth st s,
       retained only_growth s = true →
       INT_MIN ≤ failed_symbolizations st →
       failed_symbolizations st + failed_frames Symbolize (sample_frames s)
         ≤ INT_MAX →
       let st' := profile_visit Symbolize only_growth st s in
       is_Some (samples_map st'
                  !! concat_strings (frame_line Symbolize <$> sample_frames s))
       ∧ failed_symbolizations st'
         = failed_symbolizations st
           + failed_frames Symbolize (sample_frames s))
  ∧ (∀ st cnt size frames,
       INT_MIN ≤ failed_symbolizations st →
       failed_symbolizations st + failed_frames Symbolize frames ≤ INT_MAX →
       let st' := snapshot_visit Symbolize st cnt size frames in
       is_Some (samples_map st'
                  !! concat_strings (frame_line Symbolize <$> frames))
       ∧ failed_symbolizations st'
         = failed_symbolizations st + failed_frames Symbolize frames)
  ∧ (∀ pc1 pc2 pc3,
       Symbolize pc1 = None → Symbolize pc2 = None → Symbolize pc3 = None →
       symbolize_stack Symbolize [pc1; pc2; pc3] 0
       = (failed_line +:+ failed_line +:+ failed_line, 3))
  ∧ (∀ samples,
       is_Some (AggregateSnapshot Symbolize samples)
       ↔ is_Some (AggregateSnapshot (λ _, None) samples)).
Proof.
  split_and!.
  - intros sstream failed pc Hpc. unfold frame_line, symbolize_frame.
    rewrite Hpc. split_and!; [done | done |].
    intros Hf. cbn [snd]. apply wrap_int_small.
    unfold INT_MIN, INT_MAX in *. lia.
  - intros only_growth st s Hr Hlo Hhi st'. subst st'.
    rewrite profile_visit_retained by done.
    cbn [samples_map failed_symbolizations]. split.
    + unfold stack_key. rewrite lookup_insert_eq. by eexists.
    + by apply symbolize_stack_failed.
  - intros st cnt size frames Hlo Hhi st'. subst st'.
    rewrite snapshot_visit_eq. cbn [samples_map failed_symbolizations].
    split.
    + rewrite lookup_insert_eq. by eexists.
    + by apply symbolize_stack_failed.
  - intros pc1 pc2 pc3 H1 H2 H3.
    unfold symbolize_stack. cbn [foldl]. unfold symbolize_frame.
    rewrite H1, H2, H3. by rewrite !string_app_assoc.
  - intros samples. unfold AggregateSnapshot.
    split; apply snapshot_loop_is_Some.
Qed.

Lemma C9_failed_symbolization_witness :
  profile_visit demo_symbolize false AggState_init
    (mkProfileSample 1 16 false 3 [7; 8; 9])
  = mkAggState
      {[ failed_line +:+ failed_line +:+ failed_line := mkSampleInfo 16 1 ]}
      3.
Proof.
  pose proof (proj1 (proj2 (proj2 (proj2
                (C9_failed_symbolization demo_symbolize))))
                7 8 9 eq_refl eq_refl eq_refl) as H.
  unfold profile_visit. cbn [sample_count bool_decide andb negb].
  rewrite bool_decide_false by (simpl; lia). cbn [andb].
  change (sample_frames (mkProfileSample 1 16 false 3 [7; 8; 9]))
    with [7; 8; 9].
  cbn [failed_symbolizations AggState_init]. rewrite H. reflexivity.
Defined.

(** * Further properties of the two loops *)

Lemma wrap_int64_add_l a b : wrap_int64 (wrap_int64 a + b) = wrap_int64 (a + b).
Proof.
  unfold wrap_int64. f_equal.
  replace ((a + 2 ^ 63) `mod` 2 ^ 64 - 2 ^ 63 + b + 2 ^ 63)
    with ((a + 2 ^ 63) `mod` 2 ^ 64 + b) by lia.
  rewrite Zplus_mod_idemp_l. f_equal. lia.
Qed.

Lemma map_slot_insert (m : gmap string SampleInfo) k v :
  map_slot (<[k := v]> m) k = v.
Proof. unfold map_slot. by rewrite lookup_insert_eq. Qed.

Lemma map_slot_insert_ne (m : gmap string SampleInfo) k k' v :
  k ≠ k' → map_slot (<[k := v]> m) k' = map_slot m k'.
Proof. intros. unfold map_slot. by rewrite lookup_insert_ne. Qed.

Lemma contributions_at_cons k c cs :
  contributions_at k (c :: cs)
  = if decide (c_key c = k) then c :: contributions_at k cs
    else contributions_at k cs.
Proof. unfold contributions_at. by rewrite filter_cons. Qed.

(** The slot under [k] after a run of contributions. *)
Lemma fold_contributions_lookup cs (m : gmap string SampleInfo) k :
  foldl add_contribution m cs !! k
  = if decide (contributions_at k cs = []) then m !! k
    else Some (mkSampleInfo
                 (wrap_int64 (bytes (map_slot m k)
                              + sum_Z (c_bytes <$> contributions_at k cs)))
                 (wrap_int64 (count (map_slot m k)
                              + sum_Z (c_count <$> contributions_at k cs)))).
Proof.
  revert m. induction cs as [|c cs IH]; intros m; [done|].
  cbn [foldl]. rewrite IH, contributions_at_cons. unfold add_contribution.
  destruct (decide (c_key c = k)) as [<-|Hne].
  - destruct (decide (c :: contributions_at (c_key c) cs = [])) as [?|_];
      [done|].
    rewrite map_slot_insert, lookup_insert_eq, !fmap_cons, !sum_Z_cons.
    destruct (decide (contributions_at (c_key c) cs = [])) as [->|_].
    + unfold snapshot_entry. simpl. by rewrite !Z.add_0_r.
    + unfold snapshot_entry. cbn [bytes count].
      by rewrite !wrap_int64_add_l, !Z.add_assoc.
  - by rewrite map_slot_insert_ne, lookup_insert_ne.
Qed.

Lemma fold_contributions_merged cs k :
  foldl add_contribution ∅ cs !! k = merged cs k.
Proof.
  rewrite fold_contributions_lookup. unfold merged, map_slot.
  rewrite lookup_empty. by case_decide.
Qed.

Lemma merged_Permutation cs cs' k : cs ≡ₚ cs' → merged cs k = merged cs' k.
Proof.
  intros Hp. unfold merged.
  assert (contributions_at k cs ≡ₚ contributions_at k cs') as Hh
    by (unfold contributions_at; by rewrite Hp).
  destruct (decide (contributions_at k cs = [])) as [He|Hne].
  - rewrite He in Hh. apply Permutation_nil in Hh. rewrite Hh.
    by rewrite decide_True.
  - rewrite decide_False.
    + by rewrite (sum_Z_Permutation _ _ (fmap_Permutation c_bytes _ _ Hh)),
        (sum_Z_Permutation _ _ (fmap_Permutation c_count _ _ Hh)).
    + intros He. rewrite He in Hh. by apply Permutation_nil_r in Hh.
Qed.

Lemma fold_contributions_size cs (m : gmap string SampleInfo) :
  (size (foldl add_contribution m cs) ≤ size m + length cs)%nat.
Proof.
  revert m. induction cs as [|c cs IH]; intros m; cbn [foldl length]; [lia|].
  etrans; [apply IH|]. unfold add_contribution. rewrite map_size_insert.
  destruct (m !! c_key c); simpl; lia.
Qed.

Section LoopFacts.

Variable Symbolize : Z → option string.

(** Both loops are runs of contributions. *)
Lemma profile_fold_contributions only_growth l st :
  samples_map (foldl (profile_visit Symbolize only_growth) st l)
  = foldl add_contribution (samples_map st)
      (profile_contribution Symbolize <$> retained_samples only_growth l).
Proof.
  revert st. induction l as [|s l IH]; intros st; [done|].
  rewrite retained_samples_cons. cbn [foldl].
  destruct (retained only_growth s) eqn:Hr.
  - rewrite fmap_cons. cbn [foldl]. rewrite IH.
    by rewrite profile_visit_retained.
  - rewrite profile_visit_discarded by done. apply IH.
Qed.

Lemma snapshot_fold_contributions pre st :
  samples_map (foldl (snapshot_visit_sample Symbolize) st pre)
  = foldl add_contribution (samples_map st)
      (snapshot_contribution Symbolize <$> pre).
Proof.
  revert st. induction pre as [|s pre IH]; intros st; [done|].
  rewrite fmap_cons. cbn [foldl]. rewrite IH.
  unfold snapshot_visit_sample. by rewrite snapshot_visit_eq.
Qed.

End LoopFacts.

Lemma AggregateProfile_lookup (Symbolize : Z → option string)
    (profile : list ProfileSample) (only_growth : bool) (k : string) :
  samples_map (AggregateProfile Symbolize profile only_growth) !! k
  = merged (profile_contribution Symbolize
              <$> retained_samples only_growth profile) k.
Proof.
  unfold AggregateProfile. rewrite profile_fold_contributions.
  apply fold_contributions_merged.
Qed.

(** X1: the map built by the tcmalloc profile loop holds, under every
    key, the 64-bit sum of the allocated sizes and the 64-bit number of
    the retained samples whose stack text is that key, and holds nothing
    under a key that no retained sample has. *)
Theorem X1_profile_map_lookup (Symbolize : Z → option string)
    (profile : list ProfileSample) (only_growth : bool) (k : string) :
  samples_map (AggregateProfile Symbolize profile only_growth) !! k
  = merged (profile_contribution Symbolize
              <$> retained_samples only_growth profile) k.
Proof. apply AggregateProfile_lookup. Qed.

(** X2: the order in which the profile hands over its samples does not
    matter: two profiles that are rearrangements of each other give the
    same map, hence the same possible results. *)
Theorem X2_profile_order_irrelevant (Symbolize : Z → option string)
    (profile profile' : list ProfileSample) (only_growth : bool)
    (order : SampleOrder) (result : list Sample) :
  profile ≡ₚ profile' →
  samples_map (AggregateProfile Symbolize profile only_growth)
  = samples_map (AggregateProfile Symbolize profile' only_growth)
  ∧ (AggregateAndSortProfile Symbolize profile only_growth order result
     ↔ AggregateAndSortProfile Symbolize profile' only_growth order result).
Proof.
  intros Hp.
  assert (samples_map (AggregateProfile Symbolize profile only_growth)
          = samples_map (AggregateProfile Symbolize profile' only_growth))
    as Hm.
  { apply map_eq. intros k. rewrite !AggregateProfile_lookup.
    apply merged_Permutation, fmap_Permutation.
    unfold retained_samples. by rewrite Hp. }
  split; [exact Hm|]. unfold AggregateAndSortProfile. by rewrite Hm.
Qed.

Lemma X2_profile_order_irrelevant_witness :
  samples_map (AggregateProfile demo_symbolize demo_profile false)
  = samples_map (AggregateProfile demo_symbolize (reverse demo_profile) false).
Proof.
  refine (proj1 (X2_profile_order_irrelevant demo_symbolize demo_profile
                   (reverse demo_profile) false kBytes [] _)).
  symmetry. apply reverse_Permutation.
Defined.

(** ** Keys, counts and failures of the tcmalloc profile loop *)

Lemma elem_of_map_to_list_keys (m : gmap string SampleInfo) k :
  k ∈ (map_to_list m).*1 ↔ is_Some (m !! k).
Proof.
  rewrite list_elem_of_fmap. split.
  - intros ([k' info] & -> & Hin). apply elem_of_map_to_list in Hin.
    by eexists.
  - intros [info Hk]. exists (k, info). split; [done|].
    by apply elem_of_map_to_list.
Qed.

Lemma merged_is_Some cs k :
  is_Some (merged cs k) ↔ ∃ c, c ∈ cs ∧ c_key c = k.
Proof.
  unfold merged, contributions_at. split.
  - case_decide as Hh; [by intros [? ?]|]. intros _.
    destruct (filter (λ c, c_key c = k) cs) as [|c hits] eqn:Hf; [done|].
    assert (c ∈ filter (λ c, c_key c = k) cs) as Hc
      by (rewrite Hf; apply list_elem_of_here).
    apply list_elem_of_filter in Hc as [? ?]. by exists c.
  - intros (c & Hc & Hk). rewrite decide_False; [by eexists|].
    intros Hnil.
    assert (c ∈ filter (λ c, c_key c = k) cs) as Hin
      by by apply list_elem_of_filter.
    rewrite Hnil in Hin. by apply elem_of_nil in Hin.
Qed.

Lemma sum_Z_unit_counts cs :
  Forall (λ c, c_count c = 1) cs →
  sum_Z (c_count <$> cs) = Z.of_nat (length cs).
Proof.
  induction 1 as [|c cs Hc _ IH]; [done|].
  rewrite fmap_cons, sum_Z_cons, Hc, IH. cbn [length]. lia.
Qed.

Lemma sum_Z_nonneg l : Forall (λ x, 0 ≤ x) l → 0 ≤ sum_Z l.
Proof. induction 1; [done|]. rewrite sum_Z_cons. lia. Qed.

Lemma sum_Z_zero_iff l :
  Forall (λ x, 0 ≤ x) l → sum_Z l = 0 ↔ Forall (λ x, x = 0) l.
Proof.
  induction 1 as [|x l Hx Hl IH]; [done|].
  rewrite sum_Z_cons, Forall_cons, <- IH.
  pose proof (sum_Z_nonneg l Hl). lia.
Qed.

Section ProfileLoopFacts.

Variable Symbolize : Z → option string.

Lemma failed_frames_zero_iff frames :
  failed_frames Symbolize frames = 0
  ↔ Forall (λ pc, is_Some (Symbolize pc)) frames.
Proof.
  induction frames as [|pc frames IH].
  - split; [by constructor | done].
  - rewrite failed_frames_cons, Forall_cons, <- IH.
    pose proof (failed_frames_nonneg Symbolize frames).
    destruct (Symbolize pc) as [buf|].
    + split; [intros; split; [by eexists | lia] | intros [_ ?]; lia].
    + split; [lia | intros [[? ?] _]; done].
Qed.

Lemma retained_failures_cons only_growth s l :
  retained_failures Symbolize only_growth (s :: l)
  = (if retained only_growth s
     then failed_frames Symbolize (sample_frames s) else 0)
    + retained_failures Symbolize only_growth l.
Proof.
  unfold retained_failures. rewrite retained_samples_cons.
  destruct (retained only_growth s); [|done].
  by rewrite fmap_cons, sum_Z_cons.
Qed.

Lemma retained_failures_nonneg only_growth l :
  0 ≤ retained_failures Symbolize only_growth l.
Proof.
  unfold retained_failures. apply sum_Z_nonneg, Forall_fmap, Forall_forall.
  intros s _. apply failed_frames_nonneg.
Qed.

(** The counter after the loop, while it fits an [int]. *)
Lemma profile_fold_failed only_growth l st :
  INT_MIN ≤ failed_symbolizations st →
  failed_symbolizations st + retained_failures Symbolize only_growth l
    ≤ INT_MAX →
  failed_symbolizations (foldl (profile_visit Symbolize only_growth) st l)
  = failed_symbolizations st + retained_failures Symbolize only_growth l.
Proof.
  revert st. induction l as [|s l IH]; intros st Hlo Hhi.
  { unfold retained_failures. simpl. lia. }
  rewrite retained_failures_cons in Hhi |- *. cbn [foldl].
  pose proof (retained_failures_nonneg only_growth l).
  pose proof (failed_frames_nonneg Symbolize (sample_frames s)).
  destruct (retained only_growth s) eqn:Hr.
  - rewrite IH; rewrite profile_visit_retained by done;
      cbn [failed_symbolizations];
      rewrite symbolize_stack_failed by lia; lia.
  - rewrite profile_visit_discarded by done. rewrite IH; lia.
Qed.

End ProfileLoopFacts.

(** X3: the entries returned by [AggregateAndSortProfile] carry pairwise
    different stack texts; a text is among them exactly when some
    retained sample of the profile has it; so there are at most as many
    entries as retained samples. *)
Theorem X3_profile_result_keys (Symbolize : Z → option string)
    (profile : list ProfileSample) (only_growth : bool) (order : SampleOrder)
    (result : list Sample) :
  AggregateAndSortProfile Symbolize profile only_growth order result →
  NoDup result.*1
  ∧ (∀ k, k ∈ result.*1
          ↔ ∃ s, s ∈ profile ∧ retained only_growth s = true
                 ∧ stack_key Symbolize s = k)
  ∧ (length result ≤ length (retained_samples only_growth profile))%nat.
Proof.
  intros Hres. apply AggregateAndSortProfile_Permutation in Hres.
  split_and!.
  - rewrite Hres. apply NoDup_fst_map_to_list.
  - intros k. rewrite Hres, elem_of_map_to_list_keys.
    rewrite AggregateProfile_lookup, merged_is_Some. split.
    + intros (c & Hc & Hk). apply list_elem_of_fmap in Hc as (s & -> & Hs).
      apply list_elem_of_filter in Hs as [Hr Hs].
      exists s. split_and!; [done | by apply Is_true_true | done].
    + intros (s & Hs & Hr & Hk).
      exists (profile_contribution Symbolize s). split; [|done].
      apply list_elem_of_fmap. exists s. split; [done|].
      apply list_elem_of_filter. split; [by apply Is_true_true | done].
  - rewrite Hres. unfold Sample. rewrite length_map_to_list.
    unfold AggregateProfile.
    rewrite profile_fold_contributions.
    etrans; [apply fold_contributions_size|].
    cbn [samples_map AggState_init]. rewrite map_size_empty, length_fmap. lia.
Qed.

Lemma X3_profile_result_keys_witness :
  NoDup (AggregateAndSortProfile_run demo_symbolize demo_profile false
           kBytes).*1.
Proof.
  exact (proj1 (X3_profile_result_keys demo_symbolize demo_profile false
                  kBytes _ (AggregateAndSortProfile_run_ok _ _ _ _))).
Defined.

(** X4: while the number of retained samples fits the 64-bit count, the
    cumulative counts returned by [AggregateAndSortProfile] add up to the
    number of retained samples (not to the sum of their occurrence
    counts), and every entry has a count of at least 1. *)
Theorem X4_profile_counts (Symbolize : Z → option string)
    (profile : list ProfileSample) (only_growth : bool) (order : SampleOrder)
    (result : list Sample) :
  retained_count only_growth profile ≤ INT64_MAX →
  AggregateAndSortProfile Symbolize profile only_growth order result →
  total_count result = retained_count only_growth profile
  ∧ Forall (λ e : Sample, 1 ≤ count e.2) result.
Proof.
  intros Hmax Hres. apply AggregateAndSortProfile_Permutation in Hres.
  split.
  - rewrite (total_count_Permutation _ _ Hres).
    by apply AggregateProfile_count.
  - rewrite Hres. apply Forall_forall. intros [k info] Hin.
    apply elem_of_map_to_list in Hin.
    rewrite AggregateProfile_lookup in Hin. unfold merged in Hin.
    case_decide as Hh; [done|]. inversion Hin; subst. clear Hin.
    cbn [snd count].
    set (cs := profile_contribution Symbolize
                 <$> retained_samples only_growth profile) in *.
    rewrite sum_Z_unit_counts.
    2: { apply Forall_forall. intros c Hc.
         apply list_elem_of_filter in Hc as [_ Hc].
         apply list_elem_of_fmap in Hc as (s & -> & _). done. }
    assert (length (contributions_at k cs) ≤ length cs)%nat as Hlen
      by apply length_filter.
    assert (length cs = length (retained_samples only_growth profile)) as Hcs
      by (subst cs; apply length_fmap).
    unfold retained_count in Hmax.
    destruct (contributions_at k cs) as [|c hits]; [done|].
    cbn [length] in *.
    rewrite wrap_int64_small; unfold INT64_MIN, INT64_MAX in *; lia.
Qed.

Lemma X4_profile_counts_witness :
  total_count (AggregateAndSortProfile_run demo_symbolize demo_profile false
                 kCount) = 3.
Proof.
  refine (proj1 (X4_profile_counts demo_symbolize demo_profile false kCount
                   _ _ (AggregateAndSortProfile_run_ok _ _ _ _))).
  vm_compute. discriminate.
Defined.

(** X5: while the total fits an [int], the failure counter after the
    tcmalloc profile loop is the number of failing frames among those
    visited for the retained samples; frames of discarded samples are
    never counted.  The warning is logged, with that number, exactly when
    some visited frame of a retained sample fails to symbolise. *)
Theorem X5_profile_failure_count (Symbolize : Z → option string)
    (profile : list ProfileSample) (only_growth : bool) :
  retained_failures Symbolize only_growth profile ≤ INT_MAX →
  let failed :=
    failed_symbolizations (AggregateProfile Symbolize profile only_growth) in
  failed = retained_failures Symbolize only_growth profile
  ∧ (failure_warning failed = None
     ↔ Forall (λ s, Forall (λ pc, is_Some (Symbolize pc)) (sample_frames s))
         (retained_samples only_growth profile))
  ∧ (failure_warning failed ≠ None →
     failure_warning failed
     = Some ("Failed to symbolize "
             +:+ pretty (retained_failures Symbolize only_growth profile)
             +:+ " symbols")).
Proof.
  intros Hmax failed.
  assert (failed = retained_failures Symbolize only_growth profile) as Hf.
  { subst failed. unfold AggregateProfile.
    rewrite profile_fold_failed; cbn [failed_symbolizations AggState_init];
      unfold INT_MIN; lia. }
  pose proof (retained_failures_nonneg Symbolize only_growth profile) as Hnn.
  split_and!; [done | |].
  - rewrite Hf. unfold failure_warning.
    transitivity (retained_failures Symbolize only_growth profile = 0).
    { case_bool_decide; split; intros; try done; lia. }
    unfold retained_failures. rewrite sum_Z_zero_iff.
    2: { apply Forall_fmap, Forall_forall. intros s _.
         apply failed_frames_nonneg. }
    rewrite Forall_fmap. apply Forall_iff. intros s. simpl.
    apply failed_frames_zero_iff.
  - rewrite Hf. unfold failure_warning. by case_bool_decide.
Qed.

Lemma X5_profile_failure_count_witness :
  failure_warning
    (failed_symbolizations (AggregateProfile demo_symbolize demo_profile true))
  = None.
Proof.
  refine (proj2 (proj1 (proj2 (X5_profile_failure_count demo_symbolize
                                 demo_profile true _))) _).
  - vm_compute. discriminate.
  - unfold demo_profile. repeat constructor; by eexists.
Defined.

(** ** The gperftools snapshot loop: array shape, keys and totals *)

Lemma GetAggregateAndSortHeapSnapshot_run_ok Symbolize samples order result :
  GetAggregateAndSortHeapSnapshot_run Symbolize samples order = Some result →
  GetAggregateAndSortHeapSnapshot Symbolize samples order result.
Proof.
  unfold GetAggregateAndSortHeapSnapshot_run. intros Hrun.
  destruct (AggregateSnapshot Symbolize samples) as [st|] eqn:Hst; [|done].
  cbn [mbind option_bind] in Hrun. inversion Hrun; subst.
  exists st, (map_to_list (samples_map st)). split_and!; [done | |].
  - unfold map_entries. reflexivity.
  - apply sort_samples_run_sorts.
Qed.

Section SnapshotLoopFacts.

Variable Symbolize : Z → option string.

(** A return of the loop tells the shape of the array. *)
Lemma snapshot_loop_Some_inv samples st st' :
  Forall (λ w, 0 ≤ w) samples →
  snapshot_loop Symbolize samples st = Some st' →
  ∃ pre rest,
    samples = flatten_samples pre ++ 0 :: rest
    ∧ Forall (λ s, snap_count s ≠ 0) pre
    ∧ st' = foldl (snapshot_visit_sample Symbolize) st pre.
Proof.
  revert st'. funelim (snapshot_loop Symbolize samples st);
    intros st' Hw Hret; try discriminate.
  - apply bool_decide_eq_true in Heq as ->. inversion Hret; subst.
    exists [], tl. by split_and!.
  - apply bool_decide_eq_false in Heq0.
    apply Forall_cons in Hw as [_ Hw]. apply Forall_cons in Hw as [_ Hw].
    apply Forall_cons in Hw as [Hd Hw].
    destruct (H st') as (pre & rest & Hshape & Hpre & Hst).
    { by apply Forall_drop. }
    { exact Hret. }
    exists (mkSnapshotSample cnt size (take (Z.to_nat dpt) pcs) :: pre), rest.
    split_and!.
    + rewrite flatten_samples_cons.
      cbn [app snap_count snap_size snap_stack].
      rewrite <- app_assoc, <- Hshape, take_drop.
      rewrite length_take, Nat.min_l by done. by rewrite Z2Nat.id.
    + by constructor.
    + exact Hst.
Qed.

(** Without a zero count word the loop runs off the array. *)
Lemma snapshot_loop_unterminated pre st :
  Forall (λ s, snap_count s ≠ 0) pre →
  snapshot_loop Symbolize (flatten_samples pre) st = None.
Proof.
  intros Hpre. revert st. induction Hpre as [|s pre Hs _ IH]; intros st.
  - by simp snapshot_loop.
  - rewrite flatten_samples_cons, snapshot_loop_record by done. apply IH.
Qed.

Lemma AggregateSnapshot_lookup pre rest k :
  Forall (λ s, snap_count s ≠ 0) pre →
  ∃ st,
    AggregateSnapshot Symbolize (flatten_samples pre ++ 0 :: rest) = Some st
    ∧ samples_map st !! k
      = merged (snapshot_contribution Symbolize <$> pre) k.
Proof.
  intros Hpre. eexists. split.
  - unfold AggregateSnapshot. by apply snapshot_loop_flatten.
  - rewrite snapshot_fold_contributions. apply fold_contributions_merged.
Qed.

(** While a total fits in 64 bits a run of contributions keeps it
    exact. *)
Lemma fold_contributions_total (f : SampleInfo → Z) (d : Contribution → Z)
    cs (m : gmap string SampleInfo) :
  f SampleInfo_zero = 0 →
  (∀ old c,
     f (snapshot_entry old (c_count c) (c_bytes c)) = wrap_int64 (f old + d c)) →
  Forall (λ c, 0 ≤ d c) cs →
  map_Forall (λ _ info, 0 ≤ f info) m →
  sum_Z ((λ e, f e.2) <$> map_to_list m) + sum_Z (d <$> cs) ≤ INT64_MAX →
  map_Forall (λ _ info, 0 ≤ f info) (foldl add_contribution m cs)
  ∧ sum_Z ((λ e, f e.2) <$> map_to_list (foldl add_contribution m cs))
    = sum_Z ((λ e, f e.2) <$> map_to_list m) + sum_Z (d <$> cs).
Proof.
  intros Hz Hf Hd. revert m.
  induction Hd as [|c cs Hc Hd IH]; intros m Hnn Hmax.
  { simpl. split; [done | lia]. }
  rewrite fmap_cons, sum_Z_cons in Hmax |- *. cbn [foldl].
  pose proof (sum_Z_nonneg (d <$> cs)) as Hrest.
  rewrite Forall_fmap in Hrest. specialize (Hrest Hd).
  destruct (slot_update_total f m (c_key c)
              (snapshot_entry (map_slot m (c_key c)) (c_count c) (c_bytes c))
              (d c)) as [Hnn' Hsum']; [done | done | done | lia | done |].
  destruct (IH (add_contribution m c)) as [Hnn'' Hsum''].
  - exact Hnn'.
  - unfold add_contribution. rewrite Hsum'. lia.
  - split; [done|]. rewrite Hsum''. unfold add_contribution.
    rewrite Hsum'. lia.
Qed.

End SnapshotLoopFacts.

(** X6: on an array of unsigned words, [GetAggregateAndSortHeapSnapshot]
    gets through its loop exactly when the array consists of records
    with non-zero count words followed by a zero count word (and
    anything after it); otherwise the loop reads past the end of the
    array.  In particular an array of records with no zero count word
    after them is always read past its end. *)
Theorem X6_snapshot_array_shape (Symbolize : Z → option string)
    (samples : list Z) :
  Forall (λ w, 0 ≤ w) samples →
  (is_Some (AggregateSnapshot Symbolize samples)
   ↔ ∃ pre rest,
       samples = flatten_samples pre ++ 0 :: rest
       ∧ Forall (λ s, snap_count s ≠ 0) pre)
  ∧ (∀ pre, samples = flatten_samples pre →
            Forall (λ s, snap_count s ≠ 0) pre →
            AggregateSnapshot Symbolize samples = None).
Proof.
  intros Hw. split; [split|].
  - intros [st Hst]. unfold AggregateSnapshot in Hst.
    destruct (snapshot_loop_Some_inv Symbolize _ _ _ Hw Hst)
      as (pre & rest & Hshape & Hpre & _).
    by exists pre, rest.
  - intros (pre & rest & -> & Hpre). unfold AggregateSnapshot.
    rewrite snapshot_loop_flatten by done. by eexists.
  - intros pre -> Hpre. by apply snapshot_loop_unterminated.
Qed.

Lemma X6_snapshot_array_shape_witness :
  is_Some (AggregateSnapshot demo_symbolize [2; 100; 2; 1; 2; 0; 7])
  ∧ AggregateSnapshot demo_symbolize [2; 100; 2; 1; 2] = None.
Proof.
  split.
  - refine (proj2 (proj1 (X6_snapshot_array_shape demo_symbolize
                            [2; 100; 2; 1; 2; 0; 7] _)) _).
    + repeat constructor; lia.
    + exists [mkSnapshotSample 2 100 [1; 2]], [7].
      split; [reflexivity | repeat constructor; simpl; lia].
  - refine (proj2 (X6_snapshot_array_shape demo_symbolize
                     [2; 100; 2; 1; 2] _)
              [mkSnapshotSample 2 100 [1; 2]] eq_refl _).
    + repeat constructor; lia.
    + repeat constructor; simpl; lia.
Defined.

(** X7: on a terminated array the map built by the snapshot loop holds,
    under every key, the 64-bit sums of the sizes and of the counts of
    the records before the terminator whose stack text is that key, and
    nothing under any other key. *)
Theorem X7_snapshot_map_lookup (Symbolize : Z → option string)
    (pre : list SnapshotSample) (rest : list Z) (k : string) :
  Forall (λ s, snap_count s ≠ 0) pre →
  ∃ st,
    AggregateSnapshot Symbolize (flatten_samples pre ++ 0 :: rest) = Some st
    ∧ samples_map st !! k
      = merged (snapshot_contribution Symbolize <$> pre) k.
Proof. apply AggregateSnapshot_lookup. Qed.

Lemma X7_snapshot_map_lookup_witness :
  ∃ st,
    AggregateSnapshot demo_symbolize
      [2; 100; 1; 9;  3; 50; 1; 8;  0] = Some st
    ∧ samples_map st !! failed_line = Some (mkSampleInfo 150 5).
Proof.
  destruct (X7_snapshot_map_lookup demo_symbolize
              [mkSnapshotSample 2 100 [9]; mkSnapshotSample 3 50 [8]] []
              failed_line ltac:(repeat constructor; simpl; lia))
    as (st & Hst & Hk).
  exists st. split; [exact Hst | exact Hk].
Defined.

(** X8: on a terminated array whose records have sizes and counts that
    add up within the 64-bit accumulators, the snapshot back end returns
    a result, and in every result the cumulative bytes add up to the sum
    of the record sizes and the cumulative counts to the sum of the
    record counts. *)
Theorem X8_snapshot_totals (Symbolize : Z → option string)
    (pre : list SnapshotSample) (rest : list Z) (order : SampleOrder) :
  Forall (λ s, 0 < snap_count s ∧ 0 ≤ snap_size s) pre →
  sum_Z (snap_size <$> pre) ≤ INT64_MAX →
  sum_Z (snap_count <$> pre) ≤ INT64_MAX →
  let samples := flatten_samples pre ++ 0 :: rest in
  (∃ result, GetAggregateAndSortHeapSnapshot Symbolize samples order result)
  ∧ ∀ result,
      GetAggregateAndSortHeapSnapshot Symbolize samples order result →
      total_bytes result = sum_Z (snap_size <$> pre)
      ∧ total_count result = sum_Z (snap_count <$> pre).
Proof.
  intros Hpre Hb Hc samples.
  assert (Forall (λ s, snap_count s ≠ 0) pre) as Hnz.
  { eapply Forall_impl; [exact Hpre|]. simpl. intros; lia. }
  assert (AggregateSnapshot Symbolize samples
          = Some (foldl (snapshot_visit_sample Symbolize) AggState_init pre))
    as Hrun.
  { unfold AggregateSnapshot. by apply snapshot_loop_flatten. }
  split.
  - eexists. eexists _, _. split_and!; [exact Hrun | |].
    + unfold map_entries. reflexivity.
    + apply sort_samples_run_sorts.
  - intros result (st & vec & Hst & Hvec & [Hperm _]).
    rewrite Hrun in Hst. inversion Hst; subst st. clear Hst.
    unfold map_entries in Hvec. rewrite snapshot_fold_contributions in Hvec.
    cbn [samples_map AggState_init] in Hvec.
    rewrite <- (total_bytes_Permutation _ _ Hperm),
      <- (total_count_Permutation _ _ Hperm),
      (total_bytes_Permutation _ _ Hvec), (total_count_Permutation _ _ Hvec).
    split.
    + destruct (fold_contributions_total bytes c_bytes
                  (snapshot_contribution Symbolize <$> pre) ∅ eq_refl
                  (λ _ _, eq_refl)) as [_ Hsum].
      * apply Forall_fmap. eapply Forall_impl; [exact Hpre|]. simpl.
        intros; lia.
      * apply map_Forall_empty.
      * rewrite map_to_list_empty, <- list_fmap_compose. exact Hb.
      * unfold total_bytes. rewrite Hsum, map_to_list_empty.
        by rewrite <- list_fmap_compose.
    + destruct (fold_contributions_total count c_count
                  (snapshot_contribution Symbolize <$> pre) ∅ eq_refl
                  (λ _ _, eq_refl)) as [_ Hsum].
      * apply Forall_fmap. eapply Forall_impl; [exact Hpre|]. simpl.
        intros; lia.
      * apply map_Forall_empty.
      * rewrite map_to_list_empty, <- list_fmap_compose. exact Hc.
      * unfold total_count. rewrite Hsum, map_to_list_empty.
        by rewrite <- list_fmap_compose.
Qed.

Lemma X8_snapshot_totals_witness :
  let result := [("foo" +:+ endl +:+ "bar" +:+ endl, mkSampleInfo 100 2);
                 (failed_line, mkSampleInfo 50 3)] in
  total_bytes result = 150 ∧ total_count result = 5.
Proof.
  intros result.
  refine (proj2 (X8_snapshot_totals demo_symbolize
                   [mkSnapshotSample 2 100 [1; 2]; mkSnapshotSample 3 50 [9]]
                   [5; 5] kBytes _ _ _) result _).
  - repeat constructor; simpl; lia.
  - vm_compute. discriminate.
  - vm_compute. discriminate.
  - apply GetAggregateAndSortHeapSnapshot_run_ok. reflexivity.
Defined.

(** ** Further properties of the ranking *)

Lemma NoDup_fmap_eq {A B} (f : A → B) (l : list A) x y :
  NoDup (f <$> l) → x ∈ l → y ∈ l → f x = f y → x = y.
Proof.
  induction l as [|z l IH]; intros Hnd Hx Hy Hf.
  { by apply elem_of_nil in Hx. }
  rewrite fmap_cons in Hnd. apply NoDup_cons in Hnd as [Hz Hnd].
  apply elem_of_cons in Hx as [->|Hx], Hy as [->|Hy].
  - done.
  - exfalso. apply Hz. rewrite Hf. by apply list_elem_of_fmap_2.
  - exfalso. apply Hz. rewrite <- Hf. by apply list_elem_of_fmap_2.
  - by apply IH.
Qed.

Lemma is_sorted_inv {A} (comp : A → A → bool) x l :
  is_sorted comp (x :: l) →
  Forall (λ y, comp y x = false) l ∧ is_sorted comp l.
Proof.
  intros Hs. split.
  - apply Forall_forall. intros y Hy.
    apply list_elem_of_lookup in Hy as [j Hj].
    by apply (Hs 0%nat (S j) x y).
  - intros i n a b Ha Hb. by apply (Hs (S i) n a b).
Qed.

Section MoreRankingFacts.

Variable order : SampleOrder.

Lemma StronglySorted_is_sorted l :
  is_sorted (sample_greater order) l → StronglySorted (key_ge order) l.
Proof.
  induction l as [|x l IH]; intros Hs; [constructor|].
  apply is_sorted_inv in Hs as [Hx Hs]. constructor; [by apply IH|].
  eapply Forall_impl; [exact Hx|]. intros y Hy.
  by apply sample_greater_false.
Qed.

Lemma SortSamplesByOrder_unique samples out1 out2 :
  NoDup (sort_key order <$> samples) →
  SortSamplesByOrder order samples out1 →
  SortSamplesByOrder order samples out2 →
  out1 = out2.
Proof.
  intros Hnd [Hp1 Hs1] [Hp2 Hs2].
  apply (StronglySorted_unique_strong (key_ge order)).
  - intros x1 x2 Hx1 Hx2 H12 H21.
    assert (x1 ∈ samples) by (first [by rewrite Hp1 | by rewrite Hp2]).
    assert (x2 ∈ samples) by (first [by rewrite Hp1 | by rewrite Hp2]).
    apply (NoDup_fmap_eq (sort_key order) samples); [done..|].
    unfold key_ge in *. lia.
  - by apply StronglySorted_is_sorted.
  - by apply StronglySorted_is_sorted.
  - by rewrite <- Hp1, <- Hp2.
Qed.


End MoreRankingFacts.

(** X9: when no two entries have the same value of the chosen key, the
    sort has exactly one possible result: the comparator leaves nothing
    to the discretion of [std::sort]. *)
Theorem X9_sort_unique_without_ties (order : SampleOrder)
    (samples out : list Sample) :
  NoDup (sort_key order <$> samples) →
  SortSamplesByOrder order samples out →
  out = sort_samples_run order samples.
Proof.
  intros Hnd Hout.
  eapply SortSamplesByOrder_unique; [exact Hnd | exact Hout |].
  apply sort_samples_run_sorts.
Qed.

Lemma X9_sort_unique_without_ties_witness :
  [("b", mkSampleInfo 9 4); ("a", mkSampleInfo 7 1)]
  = sort_samples_run kBytes [("a", mkSampleInfo 7 1); ("b", mkSampleInfo 9 4)].
Proof.
  refine (X9_sort_unique_without_ties kBytes
            [("a", mkSampleInfo 7 1); ("b", mkSampleInfo 9 4)]
            [("b", mkSampleInfo 9 4); ("a", mkSampleInfo 7 1)] _ _).
  - apply (bool_decide_unpack _). vm_compute. exact I.
  - exact (sort_samples_run_sorts kBytes
             [("a", mkSampleInfo 7 1); ("b", mkSampleInfo 9 4)]).
Defined.

(** X10: in every result of the sort, an entry within the first [n]
    positions has a key at least as large as any entry after them: what
    the table cuts off never outranks what it shows, and the first entry
    carries a largest key. *)
Theorem X10_sort_prefix_dominates (order : SampleOrder)
    (samples out : list Sample) (n : nat) (a b : Sample) :
  SortSamplesByOrder order samples out →
  a ∈ take n out → b ∈ drop n out →
  sort_key order b ≤ sort_key order a.
Proof.
  intros [_ Hs] Ha Hb.
  apply list_elem_of_lookup in Ha as [i Hi], Hb as [j Hj].
  apply lookup_take_Some in Hi as [Hi Hin].
  rewrite lookup_drop in Hj.
  apply sample_greater_false.
  apply (Hs i (n + j - i)%nat); [done|].
  by replace (i + (n + j - i))%nat with (n + j)%nat by lia.
Qed.

Lemma X10_sort_prefix_dominates_witness :
  sort_key kCount ("a", mkSampleInfo 7 1)
  ≤ sort_key kCount ("b", mkSampleInfo 9 4).
Proof.
  refine (X10_sort_prefix_dominates kCount
            [("a", mkSampleInfo 7 1); ("b", mkSampleInfo 9 4)]
            (sort_samples_run kCount
               [("a", mkSampleInfo 7 1); ("b", mkSampleInfo 9 4)])
            1 _ _ (sort_samples_run_sorts _ _) _ _).
  - vm_compute. apply list_elem_of_here.
  - vm_compute. apply list_elem_of_here.
Defined.



(** ** Further properties of the renderer *)

Section MoreRenderFacts.

Variable EscapeForHtmlToString : string → string.

(** The text written by [GenerateTable]. *)
Lemma GenerateTable_text output samples title max_call_stacks :
  GenerateTable EscapeForHtmlToString output samples title max_call_stacks
  = Some (output +:+ table_title max_call_stacks title
          +:+ (if bool_decide (max_call_stacks < N.of_nat (length samples))%N
               then truncation_notice
                      (N.of_nat (length samples) - max_call_stacks)
               else "")
          +:+ table_head
          +:+ concat_strings
                (rendered_row EscapeForHtmlToString
                   <$> take (N.to_nat max_call_stacks) samples)
          +:+ "</table>").
Proof.
  assert (take (N.to_nat (N.min max_call_stacks (N.of_nat (length samples))))
            samples
          = take (N.to_nat max_call_stacks) samples) as Htake.
  { destruct (N.min_spec max_call_stacks (N.of_nat (length samples)))
      as [[_ ->]|[Hle ->]]; [done|].
    rewrite Nat2N.id, !take_ge; [done | lia | lia]. }
  unfold GenerateTable. rewrite emit_rows_take by lia.
  cbn [mbind option_bind]. rewrite Htake.
  case_bool_decide; rewrite ?string_app_assoc; done.
Qed.

Lemma rendered_rows_ext (l1 l2 : list Sample) :
  Forall2 (λ a b, a.2 = b.2
                  ∧ EscapeForHtmlToString a.1 = EscapeForHtmlToString b.1)
    l1 l2 →
  rendered_row EscapeForHtmlToString <$> l1
  = rendered_row EscapeForHtmlToString <$> l2.
Proof.
  induction 1 as [|a b l1 l2 [H2 H1] _ IH]; [done|].
  rewrite !fmap_cons, IH. f_equal.
  unfold rendered_row, row_text. by rewrite H1, H2.
Qed.

End MoreRenderFacts.

(** X12: the report depends on the list only through its length and
    through the totals and the escaped stack texts of its first
    [max_call_stacks] entries: two lists that agree on these give the
    same text.  Entries past the cut show only in the number that the
    truncation notice states. *)
Theorem X12_report_depends_on_shown_rows
    (EscapeForHtmlToString : string → string) (output title : string)
    (samples samples' : list Sample) (max_call_stacks : N) :
  length samples = length samples' →
  Forall2 (λ a b, a.2 = b.2
                  ∧ EscapeForHtmlToString a.1 = EscapeForHtmlToString b.1)
    (take (N.to_nat max_call_stacks) samples)
    (take (N.to_nat max_call_stacks) samples') →
  GenerateTable EscapeForHtmlToString output samples title max_call_stacks
  = GenerateTable EscapeForHtmlToString output samples' title max_call_stacks.
Proof.
  intros Hlen Hrows. rewrite !GenerateTable_text, Hlen.
  by rewrite (rendered_rows_ext _ _ _ Hrows).
Qed.

Lemma X12_report_depends_on_shown_rows_witness :
  GenerateTable id "" [("foo", mkSampleInfo 400 2); ("bar", mkSampleInfo 7 0)]
    "T" 1
  = GenerateTable id "" [("foo", mkSampleInfo 400 2); ("baz", mkSampleInfo 1 1)]
      "T" 1.
Proof.
  refine (X12_report_depends_on_shown_rows id "" "T" _ _ 1 eq_refl _).
  repeat constructor.
Defined.

(** X14: the average-bytes column for entries outside the usual range:
    a negative count gives 0, as a zero count does; a negative byte
    total with a positive count gives the quotient rounded towards zero
    (minus the floor of the opposite), not the floor; in all cases the
    column is no larger in magnitude than the byte total, so the
    division cannot overflow. *)
Theorem X14_average_rounding (info : SampleInfo) :
  (count info < 0 → average_bytes info = Some 0)
  ∧ (0 < count info → bytes info < 0 →
     average_bytes info = Some (- ((- bytes info) `div` count info)))
  ∧ ∃ avg, average_bytes info = Some avg
           ∧ Z.abs avg ≤ Z.abs (bytes info).
Proof.
  split_and!.
  - intros Hc. rewrite average_bytes_total. unfold average_column.
    by rewrite bool_decide_true by lia.
  - intros Hc Hb. rewrite average_bytes_total. unfold average_column.
    rewrite bool_decide_false by lia. f_equal.
    rewrite <- (Z.opp_involutive (bytes info)) at 1.
    rewrite Z.quot_opp_l by lia. f_equal.
    apply Z.quot_div_nonneg; lia.
  - exists (average_column info). split; [apply average_bytes_total|].
    unfold average_column. case_bool_decide as Hc; [lia|].
    rewrite <- Z.quot_abs by lia.
    rewrite Z.quot_div_nonneg by lia.
    apply Z.div_le_upper_bound; nia.
Qed.

Lemma X14_average_rounding_witness :
  average_bytes (mkSampleInfo 9 (-2)) = Some 0
  ∧ average_bytes (mkSampleInfo (-7) 2) = Some (-3).
Proof.
  split.
  - refine (proj1 (X14_average_rounding (mkSampleInfo 9 (-2))) _).
    simpl. lia.
  - refine (proj1 (proj2 (X14_average_rounding (mkSampleInfo (-7) 2))) _ _);
      simpl; lia.
Defined.

(** X15: what the tcmalloc pipeline hands to the renderer: while the
    totals fit the 64-bit accumulators, every entry returned by
    [AggregateAndSortProfile] has a count of at least 1 and a byte total
    that is not negative, so its average-bytes column is never the
    guarded 0 for a missing count but floor(bytes / count), and lies
    between 0 and the byte total. *)
Theorem X15_profile_rows_average (Symbolize : Z → option string)
    (profile : list ProfileSample) (only_growth : bool) (order : SampleOrder)
    (result : list Sample) :
  Forall size_in_range profile →
  retained_bytes only_growth profile ≤ INT64_MAX →
  retained_count only_growth profile ≤ INT64_MAX →
  AggregateAndSortProfile Symbolize profile only_growth order result →
  Forall (λ e : Sample,
            1 ≤ count e.2 ∧ 0 ≤ bytes e.2
            ∧ average_bytes e.2 = Some (bytes e.2 `div` count e.2)
            ∧ 0 ≤ bytes e.2 `div` count e.2 ≤ bytes e.2) result.
Proof.
  intros Hsz Hb Hc Hres.
  apply AggregateAndSortProfile_Permutation in Hres. rewrite Hres.
  destruct (AggregateProfile_bytes Symbolize profile only_growth Hsz Hb)
    as [Hnb _].
  apply Forall_forall. intros [k info] Hin.
  apply elem_of_map_to_list in Hin.
  pose proof (Hnb k info Hin) as Hbytes. cbn [snd] in *.
  assert (1 ≤ count info) as Hcount.
  { rewrite AggregateProfile_lookup in Hin. unfold merged in Hin.
    case_decide as Hh; [done|]. inversion Hin; subst. clear Hin.
    cbn [count].
    set (cs := profile_contribution Symbolize
                 <$> retained_samples only_growth profile) in *.
    rewrite sum_Z_unit_counts.
    2: { apply Forall_forall. intros c Hc'.
         apply list_elem_of_filter in Hc' as [_ Hc'].
         apply list_elem_of_fmap in Hc' as (s & -> & _). done. }
    assert (length (contributions_at k cs) ≤ length cs)%nat as Hlen
      by apply length_filter.
    assert (length cs = length (retained_samples only_growth profile)) as Hcs
      by (subst cs; apply length_fmap).
    unfold retained_count in Hc.
    destruct (contributions_at k cs) as [|c hits]; [done|].
    cbn [length] in *.
    rewrite wrap_int64_small; unfold INT64_MIN, INT64_MAX in *; lia. }
  split_and!; [done | done | | |].
  - rewrite average_bytes_total. unfold average_column.
    rewrite bool_decide_false by lia. f_equal.
    apply Z.quot_div_nonneg; lia.
  - apply Z.div_pos; lia.
  - apply Z.div_le_upper_bound; nia.
Qed.

Lemma X15_profile_rows_average_witness :
  Forall (λ e : Sample,
            1 ≤ count e.2 ∧ 0 ≤ bytes e.2
            ∧ average_bytes e.2 = Some (bytes e.2 `div` count e.2)
            ∧ 0 ≤ bytes e.2 `div` count e.2 ≤ bytes e.2)
    (AggregateAndSortProfile_run demo_symbolize demo_profile false kBytes).
Proof.
  refine (X15_profile_rows_average demo_symbolize demo_profile false kBytes
            _ _ _ _ (AggregateAndSortProfile_run_ok _ _ _ _)).
  - unfold demo_profile, size_in_range. repeat constructor; simpl; lia.
  - vm_compute. discriminate.
  - vm_compute. discriminate.
Defined.

(** ** Failures in the snapshot loop *)

Lemma snapshot_failures_nonneg Symbolize pre :
  0 ≤ snapshot_failures Symbolize pre.
Proof.
  unfold snapshot_failures. apply sum_Z_nonneg, Forall_fmap, Forall_forall.
  intros s _. apply failed_frames_nonneg.
Qed.

Lemma snapshot_fold_failed Symbolize pre st :
  INT_MIN ≤ failed_symbolizations st →
  failed_symbolizations st + snapshot_failures Symbolize pre ≤ INT_MAX →
  failed_symbolizations (foldl (snapshot_visit_sample Symbolize) st pre)
  = failed_symbolizations st + snapshot_failures Symbolize pre.
Proof.
  revert st. induction pre as [|s pre IH]; intros st Hlo Hhi.
  { unfold snapshot_failures. simpl. lia. }
  unfold snapshot_failures in Hhi |- *.
  rewrite fmap_cons, sum_Z_cons in Hhi |- *.
  fold (snapshot_failures Symbolize pre) in Hhi |- *.
  pose proof (snapshot_failures_nonneg Symbolize pre).
  pose proof (failed_frames_nonneg Symbolize (snap_stack s)).
  cbn [foldl]. unfold snapshot_visit_sample at 2.
  rewrite IH; rewrite snapshot_visit_eq; cbn [failed_symbolizations];
    rewrite symbolize_stack_failed by lia; lia.
Qed.

(** X16: while the total fits an [int], the failure counter after the
    snapshot loop is the number of failing frames of the records before
    the terminating zero count word; nothing after that word is ever
    symbolised.  The warning is logged exactly when one of those frames
    fails to symbolise. *)
Theorem X16_snapshot_failure_count (Symbolize : Z → option string)
    (pre : list SnapshotSample) (rest : list Z) :
  Forall (λ s, snap_count s ≠ 0) pre →
  snapshot_failures Symbolize pre ≤ INT_MAX →
  ∃ st,
    AggregateSnapshot Symbolize (flatten_samples pre ++ 0 :: rest) = Some st
    ∧ failed_symbolizations st = snapshot_failures Symbolize pre
    ∧ (failure_warning (failed_symbolizations st) = None
       ↔ Forall (λ s, Forall (λ pc, is_Some (Symbolize pc)) (snap_stack s))
           pre).
Proof.
  intros Hpre Hmax. eexists. split_and!.
  - unfold AggregateSnapshot. by apply snapshot_loop_flatten.
  - rewrite snapshot_fold_failed;
      cbn [failed_symbolizations AggState_init]; unfold INT_MIN; lia.
  - rewrite snapshot_fold_failed;
      cbn [failed_symbolizations AggState_init]; unfold INT_MIN; [|lia..].
    pose proof (snapshot_failures_nonneg Symbolize pre).
    unfold failure_warning.
    transitivity (snapshot_failures Symbolize pre = 0).
    { case_bool_decide; split; intros; try done; lia. }
    unfold snapshot_failures. rewrite sum_Z_zero_iff.
    2: { apply Forall_fmap, Forall_forall. intros s _.
         apply failed_frames_nonneg. }
    rewrite Forall_fmap. apply Forall_iff. intros s. simpl.
    apply failed_frames_zero_iff.
Qed.

Lemma X16_snapshot_failure_count_witness :
  ∃ st,
    AggregateSnapshot demo_symbolize
      (flatten_samples [mkSnapshotSample 2 100 [1; 9; 8]] ++ 0 :: [4; 4; 1; 7])
    = Some st
    ∧ failed_symbolizations st = 2.
Proof.
  destruct (X16_snapshot_failure_count demo_symbolize
              [mkSnapshotSample 2 100 [1; 9; 8]] [4; 4; 1; 7])
    as (st & Hst & Hf & _).
  - repeat constructor; simpl; lia.
  - vm_compute. discriminate.
  - exists st. split; [exact Hst | exact Hf].
Defined.

(** ** Ties in the ranking *)

Section TieFacts.

Variable order : SampleOrder.

#[local] Instance Z_ge_antisymm : AntiSymm (=) (λ x y : Z, y ≤ x).
Proof. intros x y ? ?. lia. Qed.

(** Two sorted rearrangements of the same entries show the same keys in
    the same positions. *)
Lemma sorted_keys_unique (l1 l2 : list Sample) :
  is_sorted (sample_greater order) l1 →
  is_sorted (sample_greater order) l2 →
  l1 ≡ₚ l2 →
  sort_key order <$> l1 = sort_key order <$> l2.
Proof.
  intros H1 H2 Hp.
  apply (StronglySorted_unique (λ x y : Z, y ≤ x)).
  - apply (StronglySorted_fmap _ (key_ge order)); [done|].
    by apply StronglySorted_is_sorted.
  - apply (StronglySorted_fmap _ (key_ge order)); [done|].
    by apply StronglySorted_is_sorted.
  - by rewrite Hp.
Qed.

End TieFacts.

(** C6, as stated, fails: handed twenty-four entries of equal cumulative
    bytes, the GNU [std::sort] returns them in the order
    [tied_samples_sorted], which meets the contract of the sort but moves
    entry 12 to the front and reverses most of the others. *)
Lemma C6_stable_sort_counterexample :
  SortSamplesByOrder_run kBytes tied_samples = Some tied_samples_sorted
  ∧ SortSamplesByOrder kBytes tied_samples tied_samples_sorted
  ∧ ¬ stable_order kBytes tied_samples tied_samples_sorted.
Proof.
  split_and!.
  - vm_compute. reflexivity.
  - split.
    + apply (bool_decide_unpack _). vm_compute. exact I.
    + intros i n x y Hx Hy.
      assert (Forall (λ z : Sample, bytes z.2 = 5) tied_samples_sorted)
        as Hall by (apply (bool_decide_unpack _); vm_compute; exact I).
      rewrite Forall_forall in Hall. unfold sample_greater.
      rewrite (Hall x), (Hall y) by (by eapply list_elem_of_lookup_2).
      done.
  - intros Hst. specialize (Hst 5). vm_compute in Hst. discriminate.
Qed.

(** C6 (amended): every outcome of [SortSamplesByOrder] is a rearrangement
    of its input: no entry is added, removed or changed, and for each key
    value the entries carrying it are the same before and after.  Any two
    outcomes show the same keys in the same positions, so they differ at
    most in the order of entries whose keys are equal; that order is not
    fixed by the sort and need not be the order of the input. *)
Theorem C6_sort_permutation (order : SampleOrder)
    (samples samples' : list Sample) :
  SortSamplesByOrder order samples samples' →
  samples ≡ₚ samples'
  ∧ length samples' = length samples
  ∧ (∀ e, e ∈ samples' ↔ e ∈ samples)
  ∧ (∀ k, filter (λ e, sort_key order e = k) samples'
          ≡ₚ filter (λ e, sort_key order e = k) samples)
  ∧ (∀ samples'',
       SortSamplesByOrder order samples samples'' →
       sort_key order <$> samples'' = sort_key order <$> samples'
       ∧ ∀ k, filter (λ e, sort_key order e = k) samples''
              ≡ₚ filter (λ e, sort_key order e = k) samples').
Proof.
  intros [Hp Hs]. split_and!.
  - done.
  - by rewrite Hp.
  - intros e. by rewrite Hp.
  - intros k. by rewrite Hp.
  - intros samples'' [Hp' Hs']. split.
    + apply sorted_keys_unique; [done | done |]. by rewrite <- Hp, <- Hp'.
    + intros k. by rewrite <- Hp, <- Hp'.
Qed.

Lemma C6_sort_permutation_witness :
  tied_samples ≡ₚ tied_samples_sorted
  ∧ sort_key kBytes <$> sort_samples_run kBytes tied_samples
    = sort_key kBytes <$> tied_samples_sorted.
Proof.
  pose proof (C6_sort_permutation kBytes tied_samples tied_samples_sorted)
    as H.
  destruct H as (Hp & _ & _ & _ & Hkeys).
  - split.
    + apply (bool_decide_unpack _). vm_compute. exact I.
    + intros i n x y Hx Hy.
      assert (Forall (λ z : Sample, bytes z.2 = 5) tied_samples_sorted)
        as Hall by (apply (bool_decide_unpack _); vm_compute; exact I).
      rewrite Forall_forall in Hall. unfold sample_greater.
      rewrite (Hall x), (Hall y) by (by eapply list_elem_of_lookup_2).
      done.
  - split; [exact Hp|].
    exact (proj1 (Hkeys _ (sort_samples_run_sorts kBytes tied_samples))).
Defined.

(** ** The text of the report *)

Lemma concat_strings_fmap_ext {A} (f g : A → string) (l : list A) :
  (∀ x, f x = g x) → concat_strings (f <$> l) = concat_strings (g <$> l).
Proof. intros Hfg. f_equal. by apply list_fmap_ext. Qed.

(** C7: the report is the stream's earlier content, the title line, the
    truncation notice, the table head, the rows and the closing tag.  The
    notice is present exactly when the list is longer than
    [max_call_stacks], and then states the difference of the two; the
    rows are those of the first [min max_call_stacks size] entries, in
    order, each made of the byte total, the count, the average and the
    escaped stack text.  An empty list gives no row and no notice. *)
Theorem C7_truncation_and_rows (EscapeForHtmlToString : string → string)
    (output : string) (samples : list Sample) (title : string)
    (max_call_stacks : N) :
  let size := N.of_nat (length samples) in
  let LF := String "010"%char EmptyString in
  let QUOTE := String "034"%char EmptyString in
  let row (entry : Sample) : string :=
    "<tr>"
    +:+ "<td>" +:+ pretty (bytes entry.2) +:+ "</td>"
    +:+ "<td>" +:+ pretty (count entry.2) +:+ "</td>"
    +:+ "<td>"
    +:+ pretty (if bool_decide (count entry.2 ≤ 0) then 0
                else bytes entry.2 `quot` count entry.2)
    +:+ "</td>"
    +:+ "<td><pre>" +:+ EscapeForHtmlToString entry.1 +:+ "</pre></td>"
    +:+ "</tr>" in
  ∃ notice rows,
    GenerateTable EscapeForHtmlToString output samples title max_call_stacks
    = Some (output
            +:+ "<b>Top " +:+ pretty max_call_stacks
            +:+ " Call Stacks for: " +:+ title +:+ "</b>" +:+ LF
            +:+ notice
            +:+ "<p>" +:+ LF
            +:+ "<table style=" +:+ QUOTE +:+ "border-collapse: collapse"
            +:+ QUOTE +:+ " border=1 cellpadding=5>" +:+ LF
            +:+ "<tr>" +:+ LF
            +:+ "<th>Total bytes</th>" +:+ LF
            +:+ "<th>Count</th>" +:+ LF
            +:+ "<th>Avg bytes</th>" +:+ LF
            +:+ "<th>Call Stack</th>" +:+ LF
            +:+ "</tr>" +:+ LF
            +:+ concat_strings rows
            +:+ "</table>")
    ∧ (notice ≠ "" ↔ (max_call_stacks < size)%N)
    ∧ ((max_call_stacks < size)%N →
       notice = pretty (size - max_call_stacks)%N
                +:+ " call stacks truncated" +:+ LF)
    ∧ rows = row <$> take (N.to_nat max_call_stacks) samples
    ∧ length rows = N.to_nat (N.min max_call_stacks size)
    ∧ (samples = [] → rows = [] ∧ notice = "").
Proof.
  intros size LF QUOTE row.
  exists (if bool_decide (max_call_stacks < size)%N
          then truncation_notice (size - max_call_stacks) else "").
  exists (row <$> take (N.to_nat max_call_stacks) samples).
  split_and!.
  - rewrite GenerateTable_text. fold size. f_equal.
    rewrite (concat_strings_fmap_ext (rendered_row EscapeForHtmlToString) row).
    2: { intros entry. unfold rendered_row, row_text, average_column, row.
         by rewrite !string_app_assoc. }
    unfold table_title, table_head, nl, dquote, LF, QUOTE.
    by rewrite !string_app_assoc.
  - case_bool_decide as Hlt.
    + split; [done|]. intros _. apply truncation_notice_ne_nil.
    + split; [done | intros; contradiction].
  - intros Hlt. by rewrite bool_decide_true.
  - done.
  - rewrite length_fmap, length_take. subst size. lia.
  - intros ->. split; [by rewrite take_nil|].
    rewrite bool_decide_false; [done|]. subst size. simpl. lia.
Qed.

Lemma C7_truncation_and_rows_witness :
  let LF := String "010"%char EmptyString in
  let QUOTE := String "034"%char EmptyString in
  GenerateTable id "" [("foo", mkSampleInfo 400 2); ("bar", mkSampleInfo 7 0);
                       ("baz", mkSampleInfo 7 3)] "T" 2
  = Some ("<b>Top 2 Call Stacks for: T</b>" +:+ LF
          +:+ "1 call stacks truncated" +:+ LF
          +:+ "<p>" +:+ LF
          +:+ "<table style=" +:+ QUOTE +:+ "border-collapse: collapse"
          +:+ QUOTE +:+ " border=1 cellpadding=5>" +:+ LF
          +:+ "<tr>" +:+ LF
          +:+ "<th>Total bytes</th>" +:+ LF
          +:+ "<th>Count</th>" +:+ LF
          +:+ "<th>Avg bytes</th>" +:+ LF
          +:+ "<th>Call Stack</th>" +:+ LF
          +:+ "</tr>" +:+ LF
          +:+ "<tr><td>400</td><td>2</td><td>200</td>"
          +:+ "<td><pre>foo</pre></td></tr>"
          +:+ "<tr><td>7</td><td>0</td><td>0</td>"
          +:+ "<td><pre>bar</pre></td></tr>"
          +:+ "</table>").
Proof.
  intros LF QUOTE.
  destruct (C7_truncation_and_rows id ""
              [("foo", mkSampleInfo 400 2); ("bar", mkSampleInfo 7 0);
               ("baz", mkSampleInfo 7 3)] "T" 2)
    as (notice & rows & Hgen & _ & Hnotice & Hrows & _).
  rewrite Hgen, Hrows, (Hnotice eq_refl). reflexivity.
Defined.

(** ** The snapshot loop, record by record *)

(** C10: on an array that holds the records [pre], none with a zero
    count word, followed by a zero count word and anything else, the
    snapshot loop stops at that word, having applied its body to every
    record of [pre], in order.  The body involves no test: whatever the
    count word and without any growth-only parameter, it adds the record's
    size and count, in 64 bits, to what the map held under the record's
    stack text (nothing counting as zero); so the map ends up with the
    sums over the records of [pre], key by key. *)
Theorem C10_snapshot_until_sentinel (Symbolize : Z → option string)
    (pre : list SnapshotSample) (rest : list Z) :
  Forall (λ s, snap_count s ≠ 0) pre →
  ∃ st,
    AggregateSnapshot Symbolize (flatten_samples pre ++ 0 :: rest) = Some st
    ∧ st = foldl (snapshot_visit_sample Symbolize) AggState_init pre
    ∧ (∀ k,
         let hits :=
           filter (λ s, concat_strings (frame_line Symbolize <$> snap_stack s)
                        = k) pre in
         samples_map st !! k
         = if decide (hits = []) then None
           else Some (mkSampleInfo (wrap_int64 (sum_Z (snap_size <$> hits)))
                                   (wrap_int64 (sum_Z (snap_count <$> hits)))))
    ∧ (∀ st0 s,
         let key := concat_strings (frame_line Symbolize <$> snap_stack s) in
         let old := default (mkSampleInfo 0 0) (samples_map st0 !! key) in
         samples_map (snapshot_visit_sample Symbolize st0 s) !! key
         = Some (mkSampleInfo (wrap_int64 (bytes old + snap_size s))
                              (wrap_int64 (count old + snap_count s)))).
Proof.
  intros Hpre. eexists. split_and!.
  - unfold AggregateSnapshot. by apply snapshot_loop_flatten.
  - done.
  - intros k hits. rewrite snapshot_fold_contributions.
    cbn [samples_map AggState_init]. rewrite fold_contributions_merged.
    unfold merged, contributions_at.
    assert (filter (λ c, c_key c = k) (snapshot_contribution Symbolize <$> pre)
            = snapshot_contribution Symbolize <$> hits) as ->.
    { subst hits. clear Hpre. induction pre as [|s pre IH]; [done|].
      rewrite fmap_cons, !filter_cons. cbn [snapshot_contribution c_key].
      case_decide; [by rewrite fmap_cons, IH | done]. }
    destruct hits as [|h hits']; [done|].
    rewrite !decide_False by done.
    by rewrite <- !list_fmap_compose.
  - intros st0 s key old. unfold snapshot_visit_sample.
    rewrite snapshot_visit_eq. cbn [samples_map].
    by rewrite lookup_insert_eq.
Qed.

Lemma C10_snapshot_until_sentinel_witness :
  GetAggregateAndSortHeapSnapshot_run demo_symbolize
    [2; 100; 1; 9;  18446744073709551615; 50; 1; 8;  3; 7; 2; 1; 2;  0;  5; 5]
    kBytes
  = Some [(failed_line, mkSampleInfo 150 1);
          ("foo" +:+ endl +:+ "bar" +:+ endl, mkSampleInfo 7 3)].
Proof.
  destruct (C10_snapshot_until_sentinel demo_symbolize
              [mkSnapshotSample 2 100 [9];
               mkSnapshotSample 18446744073709551615 50 [8];
               mkSnapshotSample 3 7 [1; 2]] [5; 5]
              ltac:(repeat constructor; simpl; lia))
    as (st & Hrun & Hst & _).
  unfold GetAggregateAndSortHeapSnapshot_run.
  change [2; 100; 1; 9;  18446744073709551615; 50; 1; 8;  3; 7; 2; 1; 2;
          0;  5; 5]
    with (flatten_samples
            [mkSnapshotSample 2 100 [9];
             mkSnapshotSample 18446744073709551615 50 [8];
             mkSnapshotSample 3 7 [1; 2]] ++ 0 :: [5; 5]).
  rewrite Hrun, Hst. reflexivity.
Defined.
